(** * Container dashboard: the record normalisation pipeline of [docker_manager.py]

    A shallow embedding of [DockerManager.get_docker_containers],
    [parse_ports], [is_database_container], [clean_container_name] and
    [process_containers], and the properties of the pipeline they form.

    A Python [str] is a [string]; its characters are read as the code points
    U+0000..U+00FF.  Container names and image references are ASCII, and on
    that range every operation below is the Python one.  Where Python's
    Unicode tables reach into 128..255 ([str.isspace], [str.lower], [\d]) the
    embedding follows them as well; the only characters it does not cover are
    the three whose capital is not an 8-bit character (U+00B5, U+00DF,
    U+00FF), which [capitalize] leaves unchanged. *)

From Stdlib Require Import Bool Arith Lia List Ascii String Sorted Permutation.
Import ListNotations.
Open Scope string_scope.

(** ** Python's [str] operations used by the source *)

Module Py.

Definition code (c : ascii) : nat := nat_of_ascii c.

Definition between (lo hi : nat) (c : ascii) : bool :=
  (lo <=? code c)%nat && (code c <=? hi)%nat.

(** [\d] of [re] on [str] patterns: the decimal digits; below U+0100 these
    are '0'..'9'. *)
Definition is_digit (c : ascii) : bool := between 48 57 c.

(** The class [[a-zA-Z0-9]]. *)
Definition is_alnum (c : ascii) : bool :=
  between 97 122 c || between 65 90 c || between 48 57 c.

(** [str.isspace] on one character: TAB, LF, VT, FF, CR, FS, GS, RS, US,
    SPACE, NEL and NBSP. *)
Definition is_space (c : ascii) : bool :=
  between 9 13 c || between 28 32 c || (code c =? 133)%nat || (code c =? 160)%nat.

Definition lower_char (c : ascii) : ascii :=
  if between 65 90 c || (between 192 222 c && negb (code c =? 215)%nat)
  then ascii_of_nat (code c + 32) else c.

Definition upper_char (c : ascii) : ascii :=
  if between 97 122 c || (between 224 254 c && negb (code c =? 247)%nat)
  then ascii_of_nat (code c - 32) else c.

(** [s.lower()] *)
Fixpoint lower (s : string) : string :=
  match s with
  | "" => ""
  | String c r => String (lower_char c) (lower r)
  end.

(** [s.capitalize()] *)
Definition capitalize (s : string) : string :=
  match s with
  | "" => ""
  | String c r => String (upper_char c) (lower r)
  end.

(** [s.startswith(p)] *)
Definition startswith (p s : string) : bool := prefix p s.

(** [s[n:]] and [s[:n]] for [0 <= n]. *)
Fixpoint drop (n : nat) (s : string) : string :=
  match n, s with
  | S k, String _ r => drop k r
  | _, _ => s
  end.

Fixpoint take (n : nat) (s : string) : string :=
  match n, s with
  | S k, String c r => String c (take k r)
  | _, _ => ""
  end.

(** [s[:-k]] for [0 < k]. *)
Definition drop_last (k : nat) (s : string) : string :=
  take (length s - k) s.

(** [s.endswith(p)] *)
Definition endswith (p s : string) : bool :=
  (length p <=? length s)%nat && (drop (length s - length p) s =? p).

(** [sub in s] *)
Fixpoint contains (sub s : string) : bool :=
  prefix sub s ||
  match s with
  | "" => false
  | String _ r => contains sub r
  end.

(** [s.split(sep)] for a non-empty [sep] (Python raises on an empty one; the
    source only passes literals).  The scan goes left to right; [skip]
    counts the characters of an occurrence of [sep] still to be passed
    over, so that occurrences do not overlap. *)
Fixpoint split_go (sep : string) (skip : nat) (s : string) : list string :=
  match s with
  | "" => [""]
  | String c r =>
      match skip with
      | S k => split_go sep k r
      | O =>
          if prefix sep s then "" :: split_go sep (length sep - 1) r
          else match split_go sep 0 r with
               | w :: ws => String c w :: ws
               | [] => [String c ""]
               end
      end
  end.

Definition split (sep s : string) : list string := split_go sep 0 s.

(** [s.replace(old, new)]: every non-overlapping occurrence, left to
    right.  With an empty [old] Python puts [new] around every character. *)
Fixpoint replace_go (old new : string) (skip : nat) (s : string) : string :=
  match s with
  | "" => ""
  | String c r =>
      match skip with
      | S k => replace_go old new k r
      | O =>
          if prefix old s then new ++ replace_go old new (length old - 1) r
          else String c (replace_go old new 0 r)
      end
  end.

Fixpoint intersperse (new s : string) : string :=
  match s with
  | "" => new
  | String c r => new ++ String c (intersperse new r)
  end.

Definition replace (old new s : string) : string :=
  match old with
  | "" => intersperse new s
  | _ => replace_go old new 0 s
  end.

(** [s.lstrip(...)], [s.rstrip(...)], [s.strip(...)] over a character
    class. *)
Fixpoint lstrip_by (p : ascii -> bool) (s : string) : string :=
  match s with
  | "" => ""
  | String c r => if p c then lstrip_by p r else s
  end.

Fixpoint rstrip_by (p : ascii -> bool) (s : string) : string :=
  match s with
  | "" => ""
  | String c r =>
      match rstrip_by p r with
      | "" => if p c then "" else String c ""
      | r' => String c r'
      end
  end.

Definition strip_by (p : ascii -> bool) (s : string) : string :=
  rstrip_by p (lstrip_by p s).

(** [s.strip()] *)
Definition strip (s : string) : string := strip_by is_space s.

Fixpoint char_in (c : ascii) (chars : string) : bool :=
  match chars with
  | "" => false
  | String d r => Ascii.eqb c d || char_in c r
  end.

(** [s.strip(chars)] *)
Definition strip_chars (chars s : string) : string :=
  strip_by (fun c => char_in c chars) s.

(** [s.split()]: the maximal runs of non-whitespace characters. *)
Fixpoint split_ws (s : string) : list string :=
  match s with
  | "" => []
  | String c r =>
      if is_space c then split_ws r
      else match r with
           | "" => [String c ""]
           | String d _ =>
               if is_space d then String c "" :: split_ws r
               else match split_ws r with
                    | w :: ws => String c w :: ws
                    | [] => [String c ""]
                    end
           end
  end.

(** [sep.join(l)] *)
Definition join (sep : string) (l : list string) : string := concat sep l.

(** The longest run of digits at the start of [s]: what [\d+] takes once it
    has started to match. *)
Fixpoint digits_prefix (s : string) : string :=
  match s with
  | "" => ""
  | String c r => if is_digit c then String c (digits_prefix r) else ""
  end.

Definition starts_with_digit (s : string) : bool :=
  match s with
  | "" => false
  | String c _ => is_digit c
  end.

(** [re.search(r'(\d+)', s)], with [group(1)] of the match. *)
Fixpoint search_digits (s : string) : option string :=
  match s with
  | "" => None
  | String c r =>
      if is_digit c then Some (digits_prefix s) else search_digits r
  end.

(** [re.search(r':(\d+)', s)], with [group(1)] of the match: the leftmost
    ':' that a digit follows. *)
Fixpoint search_colon_digits (s : string) : option string :=
  match s with
  | "" => None
  | String c r =>
      if Ascii.eqb c ":" && starts_with_digit r then Some (digits_prefix r)
      else search_colon_digits r
  end.

(** [re.split(r'[^a-zA-Z0-9]+', s)]; [in_sep] says that the previous
    character already belonged to a separating run. *)
Fixpoint re_split_non_alnum_go (in_sep : bool) (s : string) : list string :=
  match s with
  | "" => [""]
  | String c r =>
      if is_alnum c then
        match re_split_non_alnum_go false r with
        | w :: ws => String c w :: ws
        | [] => [String c ""]
        end
      else if in_sep then re_split_non_alnum_go true r
      else "" :: re_split_non_alnum_go true r
  end.

Definition re_split_non_alnum (s : string) : list string :=
  re_split_non_alnum_go false s.

(** [x in l] for a list of strings. *)
Definition mem (x : string) (l : list string) : bool :=
  existsb (String.eqb x) l.

(** Truth value of a [str]. *)
Definition truthy (s : string) : bool := negb (s =? "").

Definition LF : string := String (ascii_of_nat 10) "".

End Py.

Import Py.

(** ** The data model *)

(** The dictionary that [get_docker_containers] builds for one line of the
    runtime's output: always the four keys "Name", "Image", "Status" and
    "Ports". *)
Module Container.
Record t : Type := Build {
  Name : string;
  Image : string;
  Status : string;
  Ports : string
}.
End Container.

(** The dataclass [DockerService]. *)
Module DockerService.
Record t : Type := Build {
  name : string;
  image : string;
  status : string;
  ports : list (string * string);
  github_repo : option string;
  category : string;
  description : string
}.
End DockerService.

(** What [subprocess.run(..., check=True)] can do: return the captured
    standard output, or raise. *)
Inductive exn : Type :=
| CalledProcessError (msg : string)
| FileNotFoundError
| OtherError (msg : string).

Definition completed : Type := (exn + string)%type.

(** A call of a method that prints and may raise: the lines printed, and the
    value returned or the exception that leaves the method. *)
Definition outcome (A : Type) : Type := (list string * (exn + A))%type.

Definition ret {A : Type} (x : A) : outcome A := ([], inr x).

Definition bind {A B : Type} (m : outcome A) (f : A -> outcome B) : outcome B :=
  match m with
  | (out, inl e) => (out, inl e)
  | (out, inr x) => let (out', r) := f x in ((out ++ out')%list, r)
  end.

(** ** [DockerManager.get_docker_containers] *)

Definition docker_cmd (all_containers : bool) : list string :=
  ((["docker"; "ps"] ++ (if all_containers then ["-a"] else []))
     ++ ["--format"; "{{.Names}}|{{.Image}}|{{.Status}}|{{.Ports}}"])%list.

(** One turn of the loop over the lines of the output. *)
Definition add_line (containers : list Container.t) (line : string)
  : list Container.t :=
  if truthy (strip line) then
    let parts := split "|" line in
    if (4 <=? List.length parts)%nat then
      (containers ++ [Container.Build (nth 0 parts "") (nth 1 parts "")
                                      (nth 2 parts "") (nth 3 parts "")])%list
    else containers
  else containers.

Definition containers_of_stdout (stdout : string) : list Container.t :=
  fold_left add_line (split LF (strip stdout)) [].

Definition get_docker_containers (run : list string -> completed)
    (all_containers : bool) : outcome (list Container.t) :=
  match run (docker_cmd all_containers) with
  | inr stdout => ret (containers_of_stdout stdout)
  | inl (CalledProcessError e) =>
      (["Error running docker command: " ++ e], inr [])
  | inl FileNotFoundError =>
      (["Docker not found. Please ensure Docker is installed and running."],
       inr [])
  | inl e => ([], inl e)
  end.

(** ** [DockerManager.parse_ports] *)

(** One turn of the loop over the comma-separated clauses: the pairs it
    appends to [ports]. *)
Definition parse_mapping (mapping : string) : list (string * string) :=
  let mapping := strip mapping in
  if contains "->" mapping then
    match split "->" mapping with
    | [p0; p1] =>
        let host_part := strip p0 in
        let container_part := strip p1 in
        match search_colon_digits host_part, search_digits container_part with
        | Some host_port, Some container_port => [(host_port, container_port)]
        | _, _ => []
        end
    | _ => []
    end
  else if contains ":" mapping && negb (startswith "::" mapping) then
    let parts := split ":" mapping in
    if (2 <=? List.length parts)%nat then
      let host_port := strip (nth 0 parts "") in
      let container_port := nth 0 (split "/" (strip (nth 1 parts ""))) "" in
      [(host_port, container_port)]
    else []
  else [].

Definition parse_ports (ports_str : string) : list (string * string) :=
  if negb (truthy ports_str) || (ports_str =? "") then []
  else
    fold_left (fun ports mapping => (ports ++ parse_mapping mapping)%list)
              (split "," ports_str) [].

(** ** [DockerManager.is_database_container] *)

Definition database_keywords : list string :=
  [ "mysql"; "postgres"; "postgresql"; "mongo"; "mongodb"; "redis";
    "database"; "db"; "sql"; "nosql"; "mariadb"; "sqlite"; "cassandra";
    "elasticsearch"; "influxdb"; "couchdb"; "neo4j"; "orientdb";
    "couchbase"; "dynamodb"; "firebase"; "rethinkdb"; "arangodb";
    "timescaledb"; "clickhouse"; "questdb"; "quest"; "supabase";
    "planetscale"; "neon"; "railway"; "vercel"; "supabase";
    "db-"; "-db"; "_db"; "db_"; "database-"; "-database"; "_database" ].

(** The loop over the keywords, which returns at the first hit. *)
Fixpoint any_keyword (keywords : list string) (name_lower image_lower : string)
  : bool :=
  match keywords with
  | [] => false
  | keyword :: rest =>
      if contains keyword name_lower || contains keyword image_lower then true
      else any_keyword rest name_lower image_lower
  end.

Definition is_database_container (name image : string) : bool :=
  any_keyword database_keywords (lower name) (lower image).

(** ** [DockerManager.clean_container_name] *)

Definition generic_terms : list string :=
  [ "frontend"; "backend"; "server"; "docker"; "app"; "web"; "api";
    "service"; "container"; "instance"; "main"; "primary"; "default";
    "prod"; "production"; "dev"; "development"; "test"; "testing";
    "staging"; "preview"; "demo"; "example"; "sample"; "temp"; "tmp";
    "nginx"; "proxy"; "gateway"; "router"; "loadbalancer"; "lb";
    "cache"; "redis"; "db"; "database"; "sql"; "nosql"; "storage";
    "file"; "files"; "upload"; "download"; "static"; "assets";
    "media"; "image"; "images"; "video"; "audio"; "music"; "photo";
    "admin"; "management"; "dashboard"; "panel"; "control"; "config";
    "setup"; "install"; "init"; "bootstrap"; "startup"; "launcher";
    "runner"; "executor"; "worker"; "processor"; "handler"; "manager";
    "controller"; "monitor"; "watcher"; "observer"; "listener";
    "receiver"; "sender"; "publisher"; "subscriber"; "consumer";
    "producer"; "generator"; "creator"; "builder"; "compiler";
    "transformer"; "converter"; "parser"; "analyzer"; "scanner";
    "crawler"; "spider"; "bot"; "agent"; "daemon"; "process";
    "thread"; "task"; "job"; "work"; "operation"; "function";
    "module"; "component"; "part"; "piece"; "unit"; "element";
    "item"; "object"; "entity"; "record"; "entry"; "row"; "line";
    "node"; "point"; "spot"; "place"; "location"; "position";
    "site"; "area"; "zone"; "region"; "section"; "segment";
    "chunk"; "block"; "fragment"; "portion"; "bit"; "part";
    "webservice"; "webserver"; "webui"; "web-ui"; "ui"; "interface";
    "1"; "2"; "3"; "4"; "5"; "6"; "7"; "8"; "9"; "0";
    "-1"; "-2"; "-3"; "-4"; "-5"; "-6"; "-7"; "-8"; "-9"; "-0" ].

Definition separators : list string := ["-"; "_"; "."; " "].

(** [image.split('/')[-1].split(':')[0].split('@')[0]] *)
Definition image_parts (image : string) : string :=
  nth 0 (split "@" (nth 0 (split ":" (last (split "/" image) "")) "")) "".

(** The body of the inner loop: one term and one separator. *)
Definition remove_term (term : string) (cleaned_name separator : string)
  : string :=
  let pattern := separator ++ term ++ separator in
  let cleaned_name := replace pattern separator cleaned_name in
  let pattern := term ++ separator in
  let cleaned_name :=
    if startswith pattern cleaned_name
    then drop (length pattern) cleaned_name else cleaned_name in
  let pattern := separator ++ term in
  let cleaned_name :=
    if endswith pattern cleaned_name
    then drop_last (length pattern) cleaned_name else cleaned_name in
  cleaned_name.

Definition remove_generic_terms (cleaned_name : string) : string :=
  fold_left (fun cleaned_name term =>
               fold_left (remove_term term) separators cleaned_name)
            generic_terms cleaned_name.

Definition strip_separators (cleaned_name : string) : string :=
  fold_left (fun cleaned_name separator => strip_chars separator cleaned_name)
            separators cleaned_name.

(** The loop that keeps the first of the words equal up to case. *)
Definition add_unique (unique_words : list string) (word : string)
  : list string :=
  if truthy word && negb (mem (lower word) (map lower unique_words))
  then (unique_words ++ [word])%list else unique_words.

Definition unique_words_of (words : list string) : list string :=
  fold_left add_unique words [].

(** [cleaned_name] as it stands before the test on its length. *)
Definition cleaned_words (name : string) : string :=
  let cleaned_name := lower name in
  let cleaned_name := remove_generic_terms cleaned_name in
  let cleaned_name := strip_separators cleaned_name in
  let words := re_split_non_alnum cleaned_name in
  join " " (unique_words_of words).

(** [' '.join(word.capitalize() for word in cleaned_name.split())] *)
Definition capitalize_words (cleaned_name : string) : string :=
  join " " (map capitalize (split_ws cleaned_name)).

Definition clean_container_name (name image : string) : string :=
  let image_parts := image_parts image in
  let cleaned_name := cleaned_words name in
  let cleaned_name :=
    if (length cleaned_name <? 3)%nat || negb (truthy cleaned_name)
    then image_parts else cleaned_name in
  capitalize_words cleaned_name.

(** ** [DockerManager.process_containers] *)

(** [list.sort(key=...)] is stable and orders the keys, here strings, by
    code point; of a given list there is one stable ordering, which
    insertion from the right builds. *)
Section Sort.
Context {A : Type} (key : A -> string).

Fixpoint insert_by_key (x : A) (l : list A) : list A :=
  match l with
  | [] => [x]
  | y :: r =>
      if String.leb (key x) (key y) then x :: l
      else y :: insert_by_key x r
  end.

Definition sort_by_key (l : list A) : list A :=
  fold_right insert_by_key [] l.
End Sort.

Definition sort_key (x : DockerService.t) : string :=
  lower (DockerService.name x).

(** One turn of the loop over the containers. *)
Definition add_service (services : list DockerService.t) (container : Container.t)
  : list DockerService.t :=
  let name := Container.Name container in
  let image := Container.Image container in
  let ports := parse_ports (Container.Ports container) in
  let status := Container.Status container in
  if is_database_container name image then services
  else match ports with
       | [] => services
       | _ :: _ =>
           let cleaned_name := clean_container_name name image in
           (services ++ [DockerService.Build cleaned_name image status ports
                                             None "Other" ""])%list
       end.

(** The part of [process_containers] that follows the call of the lister. *)
Definition catalog (containers : list Container.t) : list DockerService.t :=
  let services := fold_left add_service containers [] in
  sort_by_key sort_key services.

Definition process_containers (run : list string -> completed) (show_all : bool)
  : outcome (list DockerService.t) :=
  bind (get_docker_containers run show_all)
       (fun containers => ret (catalog containers)).

(** ** [DockerManager.load_config] *)

(** What [json.load] can return. *)
#[local] Set Warnings "-register-all".
Inductive json : Type :=
| JNull
| JBool (b : bool)
| JNumber (text : string)
| JString (s : string)
| JArray (items : list json)
| JObject (members : list (string * json)).
#[local] Set Warnings "register-all".

Definition default_config : list (string * json) :=
  [("hostname", JString "localhost");
   ("protocol", JString "http");
   ("description", JString "Container Dashboard Configuration")].

(** [key in members] for the members of a dictionary. *)
Definition has_key (key : string) (members : list (string * json)) : bool :=
  existsb (fun member => fst member =? key) members.

(** [key in config]; [None] when Python raises [TypeError] (a number, a
    boolean and [None] are not containers). *)
Definition py_in (key : string) (config : json) : option bool :=
  match config with
  | JObject members => Some (has_key key members)
  | JArray items =>
      Some (existsb (fun item => match item with
                                 | JString s => s =? key
                                 | _ => false
                                 end) items)
  | JString s => Some (contains key s)
  | JNull | JBool _ | JNumber _ => None
  end.

(** [members[key] = value] on a dictionary: the value of a key that is
    there is replaced in its place, a new key goes to the end. *)
Fixpoint dict_set (members : list (string * json)) (key : string) (value : json)
  : list (string * json) :=
  match members with
  | [] => [(key, value)]
  | (k, v) :: rest =>
      if k =? key then (k, value) :: rest
      else (k, v) :: dict_set rest key value
  end.

(** [config[key] = value]; [None] when Python raises [TypeError] (only a
    dictionary takes a string key). *)
Definition py_setitem (config : json) (key : string) (value : json)
  : option json :=
  match config with
  | JObject members => Some (JObject (dict_set members key value))
  | _ => None
  end.

(** The loop [for key, value in default_config.items()]; [None] when a turn
    raises. *)
Fixpoint merge_defaults (defaults : list (string * json)) (config : json)
  : option json :=
  match defaults with
  | [] => Some config
  | (key, value) :: rest =>
      match py_in key config with
      | None => None
      | Some true => merge_defaults rest config
      | Some false =>
          match py_setitem config key value with
          | None => None
          | Some config' => merge_defaults rest config'
          end
      end
  end.

(** The configuration file as [load_config] finds it: not there, there but
    [open] or [json.load] raises, or there with a value. *)
Inductive config_file : Type :=
| NoFile
| Unreadable (e : exn)
| Holds (value : json).

(** An exception that the [except Exception] of [load_config] catches. *)
Inductive load_error : Type :=
| Raised (e : exn)
| TypeError.

(** What a call of [load_config] that returns has done: the configuration
    returned, the errors printed after "Error loading config: ", and the
    value written to the file, if any. *)
Module Loaded.
Record t : Type := Build {
  config : json;
  printed : list load_error;
  written : option json
}.
End Loaded.

(** [create] is what writing the file of defaults does when the file is not
    there: [None] when it succeeds, the exception otherwise, which nothing
    catches. *)
Definition load_config (file : config_file) (create : option exn)
  : exn + Loaded.t :=
  match file with
  | Holds value =>
      match merge_defaults default_config value with
      | Some config => inr (Loaded.Build config [] None)
      | None => inr (Loaded.Build (JObject default_config) [TypeError] None)
      end
  | Unreadable e => inr (Loaded.Build (JObject default_config) [Raised e] None)
  | NoFile =>
      match create with
      | None => inr (Loaded.Build (JObject default_config) []
                                  (Some (JObject default_config)))
      | Some e => inl e
      end
  end.

(** [config[key]] as [generate_html] reads it. *)
Inductive lookup_error : Type :=
| KeyError
| BadSubscript.

Fixpoint dict_get (members : list (string * json)) (key : string)
  : option json :=
  match members with
  | [] => None
  | (k, v) :: rest => if k =? key then Some v else dict_get rest key
  end.

Definition py_getitem (config : json) (key : string) : lookup_error + json :=
  match config with
  | JObject members =>
      match dict_get members key with
      | Some v => inr v
      | None => inl KeyError
      end
  | _ => inl BadSubscript
  end.

(** ** [DockerManager.generate_html]: the values put into the page

    The page is a fixed template into which [generate_html] puts the three
    counts, one card for each service and the time; the embedding keeps
    these values and leaves the markup, the style sheet and the script
    out.  [hostname] is the text that [self.config['hostname']] formats
    to. *)

Definition running_services (services : list DockerService.t)
  : list DockerService.t :=
  filter (fun s => contains "Up" (DockerService.status s)) services.

Definition stopped_services (services : list DockerService.t)
  : list DockerService.t :=
  filter (fun s => contains "Exited" (DockerService.status s)
                   || contains "Created" (DockerService.status s))
         services.

Definition status_class (service : DockerService.t) : string :=
  if contains "Up" (DockerService.status service) then
    if contains "unhealthy" (lower (DockerService.status service))
    then "status-unhealthy" else "status-running"
  else "status-stopped".

(** [service.ports[0][0] if service.ports else None] *)
Definition first_port (service : DockerService.t) : option string :=
  match DockerService.ports service with
  | [] => None
  | mapping :: _ => Some (fst mapping)
  end.

(** [f"http://{hostname}:{first_port}" if first_port else "#"]: [None] and
    the empty string are both false. *)
Definition main_url (hostname : string) (first_port : option string) : string :=
  match first_port with
  | None => "#"
  | Some port =>
      if truthy port then "http://" ++ hostname ++ ":" ++ port else "#"
  end.

(** [f"{first_port}"] *)
Definition port_text (first_port : option string) : string :=
  match first_port with
  | None => "None"
  | Some port => port
  end.

(** The values of one card. *)
Module Card.
Record t : Type := Build {
  href : string;
  name : string;
  image : string;
  port : string;
  css_class : string;
  status : string
}.
End Card.

Definition card_of (hostname : string) (service : DockerService.t) : Card.t :=
  Card.Build (main_url hostname (first_port service))
             (DockerService.name service)
             (DockerService.image service)
             (port_text (first_port service))
             (status_class service)
             (DockerService.status service).

(** The values of the page; with no card, the page shows the block "No
    Services Found" in place of the grid. *)
Module Page.
Record t : Type := Build {
  running : nat;
  stopped : nat;
  total : nat;
  cards : list Card.t;
  updated : string
}.
End Page.

Definition page_of (hostname now : string) (services : list DockerService.t)
  : Page.t :=
  Page.Build (List.length (running_services services))
             (List.length (stopped_services services))
             (List.length services)
             (map (card_of hostname) services)
             now.

(** [show_all] is [True] unless the caller says otherwise, and [save_html]
    does not; [now] is the text of [datetime.now()]. *)
Definition generate_html (run : list string -> completed)
    (hostname now : string) (show_all : bool) : outcome Page.t :=
  bind (process_containers run show_all)
       (fun services => ret (page_of hostname now services)).

(** ** [DashboardUpdateHandler.do_GET] of [update_dashboard.py]

    The calls that the handler makes on the response, in their order.  A
    body is kept as the value that the handler serialises. *)

Inductive body : Type :=
| JsonStatus (status message timestamp : string)
| Dashboard (html_content : string)
| DashboardNotFound
| ServerError (message : string)
| NotFound.

Inductive http_call : Type :=
| SendResponse (code : nat)
| SendHeader (keyword value : string)
| EndHeaders
| Write (content : body).

(** [refresh] is what [DockerManager()] followed by [save_html()] does:
    [None] when both return, the text of the exception otherwise; [index] is
    what reading "index.html" does; [now] is the text of
    [datetime.now().isoformat()]. *)
Definition do_GET (path : string) (refresh : option string)
    (index : exn + string) (now : string) : list http_call :=
  if path =? "/api/refresh" then
    ([SendResponse 200; SendHeader "Content-type" "application/json";
      EndHeaders]
     ++ match refresh with
        | None =>
            [Write (JsonStatus "success" "Dashboard updated successfully" now)]
        | Some e =>
            [SendResponse 500; SendHeader "Content-type" "application/json";
             EndHeaders; Write (JsonStatus "error" e now)]
        end)%list
  else if (path =? "/") || (path =? "/dashboard") then
    match index with
    | inr html_content =>
        [SendResponse 200;
         SendHeader "Content-type" "text/html; charset=utf-8";
         EndHeaders; Write (Dashboard html_content)]
    | inl FileNotFoundError =>
        [SendResponse 404; SendHeader "Content-type" "text/html";
         EndHeaders; Write DashboardNotFound]
    | inl (CalledProcessError e) | inl (OtherError e) =>
        [SendResponse 500; SendHeader "Content-type" "text/html";
         EndHeaders; Write (ServerError e)]
    end
  else
    [SendResponse 404; SendHeader "Content-type" "text/html";
     EndHeaders; Write NotFound].

(** ** Statements of the specification that the source does not define *)

(** Every character of [s] is in the class [p]. *)
Fixpoint all_chars (p : ascii -> bool) (s : string) : bool :=
  match s with
  | "" => true
  | String c r => p c && all_chars p r
  end.

(** A digit string: one digit at least, and digits only. *)
Definition digit_string (s : string) : bool :=
  truthy s && all_chars is_digit s.

(** The record that the first four pipe-separated fields of a line make, if
    the line has four fields. *)
Definition first_four_fields (line : string) : list Container.t :=
  match split "|" line with
  | n :: i :: s :: p :: _ => [Container.Build n i s p]
  | _ => []
  end.

(** [s] holds a ':' that a digit follows directly. *)
Fixpoint colon_then_digit (s : string) : bool :=
  match s with
  | "" => false
  | String c r => (Ascii.eqb c ":" && starts_with_digit r) || colon_then_digit r
  end.

Definition not_digit (c : ascii) : bool := negb (is_digit c).

(** [run] is the first run of digits of [s]: no digit comes before it, and it
    is not continued by a digit. *)
Definition first_run (s run : string) : Prop :=
  exists pre post,
    s = pre ++ run ++ post
    /\ all_chars not_digit pre = true
    /\ digit_string run = true
    /\ starts_with_digit post = false.

(** [run] is the run of digits that follows the first ':' of [s] that a
    digit follows. *)
Definition first_run_after_colon (s run : string) : Prop :=
  exists pre post,
    s = pre ++ ":" ++ run ++ post
    /\ colon_then_digit pre = false
    /\ digit_string run = true
    /\ starts_with_digit post = false.

(** [run] is a full run of digits of [s] that directly follows a ':'. *)
Definition run_after_colon (s run : string) : Prop :=
  exists pre post,
    s = pre ++ ":" ++ run ++ post
    /\ digit_string run = true
    /\ starts_with_digit post = false.

(** Both components of a port mapping are digit strings. *)
Definition digit_pair (mapping : string * string) : bool :=
  digit_string (fst mapping) && digit_string (snd mapping).

(** An explicit clause [<iface>:<host>-><cont>/<proto>]. *)
Module Clause.
Record t : Type := Build {
  iface : string;
  host : string;
  cont : string;
  proto : string
}.
End Clause.

Definition render (c : Clause.t) : string :=
  Clause.iface c ++ ":" ++ Clause.host c ++ "->" ++ Clause.cont c
    ++ "/" ++ Clause.proto c.

(** A character that an interface or a protocol name may hold: no white
    space, no ',' and no '>'. *)
Definition plain (c : ascii) : bool :=
  negb (is_space c) && negb (Ascii.eqb "," c) && negb (Ascii.eqb ">" c).

Definition not_gt (c : ascii) : bool := negb (Ascii.eqb ">" c).

Definition no_space_comma (c : ascii) : bool :=
  negb (is_space c) && negb (Ascii.eqb "," c).

(** The ports are digit strings, the interface and the protocol are plain,
    and no ':' of the interface is followed by a digit (an IPv4 address,
    "[::]", a host name or nothing, but not "[::1]"). *)
Definition well_formed (c : Clause.t) : bool :=
  digit_string (Clause.host c) && digit_string (Clause.cont c)
  && all_chars plain (Clause.iface c) && all_chars plain (Clause.proto c)
  && negb (colon_then_digit (Clause.iface c)).

(** The condition under which a container record enters the catalog: the
    classifier does not flag it, and its port string parses to one mapping at
    least. *)
Definition emitted (container : Container.t) : bool :=
  negb (is_database_container (Container.Name container)
                              (Container.Image container))
  && match parse_ports (Container.Ports container) with
     | [] => false
     | _ :: _ => true
     end.

(** The catalog entry of a container record. *)
Definition service_of (container : Container.t) : DockerService.t :=
  DockerService.Build
    (clean_container_name (Container.Name container)
                          (Container.Image container))
    (Container.Image container)
    (Container.Status container)
    (parse_ports (Container.Ports container))
    None "Other" "".

(** The order of the catalog: display names compared without case. *)
Definition name_le (a b : DockerService.t) : Prop :=
  String.leb (sort_key a) (sort_key b) = true.

(** The entries whose case-folded display name is [k], in their order. *)
Definition with_key (k : string) (l : list DockerService.t)
  : list DockerService.t :=
  filter (fun x => sort_key x =? k) l.

(** The part of [s] that follows its last [d]; [s] itself when it has no
    [d]. *)
Fixpoint after_last (d : ascii) (s : string) : string :=
  match s with
  | "" => ""
  | String c r =>
      if Ascii.eqb d c then after_last d r
      else if char_in d r then after_last d r else s
  end.

(** The part of [s] that comes before its first character of the class
    [p]. *)
Fixpoint up_to (p : ascii -> bool) (s : string) : string :=
  match s with
  | "" => ""
  | String c r => if p c then "" else String c (up_to p r)
  end.

(** The base image name: what follows the last '/', up to a tag or a
    digest. *)
Definition base_image (image : string) : string :=
  up_to (fun c => Ascii.eqb ":" c || Ascii.eqb "@" c) (after_last "/" image).

(** The ten digits, as the vocabulary of the normalizer lists them. *)
Definition single_digits : list string :=
  ["1"; "2"; "3"; "4"; "5"; "6"; "7"; "8"; "9"; "0"].

(** The cleaned name is too short to be kept. *)
Definition falls_back (name : string) : bool :=
  (length (cleaned_words name) <? 3)%nat.

(** The line feed, as a character. *)
Definition LF_char : ascii := ascii_of_nat 10.

(** No field of the record holds a '|' or a line feed. *)
Definition clean_fields (container : Container.t) : bool :=
  forallb (fun field => negb (char_in "|" field) && negb (char_in LF_char field))
          [Container.Name container; Container.Image container;
           Container.Status container; Container.Ports container].

(** The line that the runtime prints for a container under the format
    [{{.Names}}|{{.Image}}|{{.Status}}|{{.Ports}}] of [docker_cmd]. *)
Definition format_line (container : Container.t) : string :=
  Container.Name container ++ "|" ++ Container.Image container ++ "|"
    ++ Container.Status container ++ "|" ++ Container.Ports container.

(** Lines of output, each ended by a line feed. *)
Fixpoint lines_text (lines : list string) : string :=
  match lines with
  | [] => ""
  | line :: rest => line ++ LF ++ lines_text rest
  end.

Definition docker_output (containers : list Container.t) : string :=
  lines_text (map format_line containers).

(** The first, and the last, character of [s] is in the class [p]. *)
Definition head_in (p : ascii -> bool) (s : string) : bool :=
  match s with
  | "" => false
  | String c _ => p c
  end.

Fixpoint last_in (p : ascii -> bool) (s : string) : bool :=
  match s with
  | "" => false
  | String c "" => p c
  | String _ r => last_in p r
  end.

(** A record that the output can carry: no field holds a '|' or a line feed,
    the name does not start and the port text does not end with white
    space. *)
Definition tidy (container : Container.t) : bool :=
  clean_fields container
  && negb (head_in is_space (Container.Name container))
  && negb (last_in is_space (Container.Ports container)).

(** The part of [s] that follows its first [d]; empty when [s] has no
    [d]. *)
Fixpoint after_first (d : ascii) (s : string) : string :=
  match s with
  | "" => ""
  | String c r => if Ascii.eqb d c then r else after_first d r
  end.

(** The keywords of [database_keywords] that hold no other keyword. *)
Definition minimal_keywords : list string :=
  [ "postgres"; "mongo"; "redis"; "database"; "db"; "sql"; "cassandra";
    "elasticsearch"; "neo4j"; "couchbase"; "firebase"; "clickhouse";
    "quest"; "supabase"; "planetscale"; "neon"; "railway"; "vercel" ].

(** The words of the cleaned name, before they are joined. *)
Definition kept_words (name : string) : list string :=
  unique_words_of
    (re_split_non_alnum (strip_separators (remove_generic_terms (lower name)))).

Definition not_space (c : ascii) : bool := negb (is_space c).

(** A word: not empty, and without white space. *)
Definition word (w : string) : Prop :=
  w <> "" /\ all_chars not_space w = true.

(** The keys of a dictionary. *)
Definition keys (members : list (string * json)) : list string :=
  map fst members.

(** The defaults whose key the dictionary does not hold. *)
Definition missing_defaults (members : list (string * json))
  : list (string * json) :=
  filter (fun d => negb (has_key (fst d) members)) default_config.

Definition is_object (config : json) : bool :=
  match config with
  | JObject _ => true
  | _ => false
  end.

(** The status of the first call of [send_response], and the bodies
    written. *)
Definition first_status (calls : list http_call) : option nat :=
  match calls with
  | SendResponse code :: _ => Some code
  | _ => None
  end.

Definition bodies (calls : list http_call) : list body :=
  flat_map (fun call => match call with
                        | Write content => [content]
                        | _ => []
                        end) calls.

(** The cards that the tab "Stopped" of the page shows. *)
Definition shown_stopped (card : Card.t) : bool :=
  Card.css_class card =? "status-stopped".

(** * Properties *)

(** ** Loops that append *)

Section Loops.
Context {A B : Type}.

Lemma fold_left_app_flat_map (f : A -> list B) (l : list A) (acc : list B) :
  fold_left (fun acc x => (acc ++ f x)%list) l acc
  = (acc ++ flat_map f l)%list.
Proof.
  revert acc; induction l as [|x l IH]; intros acc; simpl.
  - now rewrite app_nil_r.
  - now rewrite IH, app_assoc.
Qed.

Lemma fold_left_ext_app (step : list B -> A -> list B) (f : A -> list B) :
  (forall acc x, step acc x = (acc ++ f x)%list) ->
  forall l acc, fold_left step l acc = (acc ++ flat_map f l)%list.
Proof.
  intros Hstep l; induction l as [|x l IH]; intros acc; simpl.
  - now rewrite app_nil_r.
  - now rewrite Hstep, IH, app_assoc.
Qed.
End Loops.

(** ** Characters and stripping *)

Lemma all_chars_impl (p q : ascii -> bool) (s : string) :
  (forall c, p c = true -> q c = true) ->
  all_chars p s = true -> all_chars q s = true.
Proof.
  intros Hpq; induction s as [|c r IH]; simpl; [easy|].
  rewrite !andb_true_iff; intros [Hc Hr]; auto.
Qed.

Lemma rstrip_by_empty (p : ascii -> bool) (s : string) :
  rstrip_by p s = "" -> all_chars p s = true.
Proof.
  induction s as [|c r IH]; simpl; [easy|].
  destruct (rstrip_by p r) eqn:Hr; [|discriminate].
  destruct (p c); [|discriminate]. intros _. now apply IH.
Qed.

Lemma lstrip_by_head (p : ascii -> bool) (s : string) :
  match lstrip_by p s with
  | "" => all_chars p s = true
  | String c _ => p c = false
  end.
Proof.
  induction s as [|c r IH]; simpl; [easy|].
  destruct (p c) eqn:Hc; simpl; [|now rewrite Hc].
  exact IH.
Qed.

Lemma strip_by_empty (p : ascii -> bool) (s : string) :
  strip_by p s = "" -> all_chars p s = true.
Proof.
  unfold strip_by; intros H.
  pose proof (lstrip_by_head p s) as Hl.
  destruct (lstrip_by p s) as [|c r]; [exact Hl|].
  apply rstrip_by_empty in H. simpl in H. now rewrite Hl in H.
Qed.

Lemma is_space_not_pipe (c : ascii) : is_space c = true -> c <> "|"%char.
Proof. intros H ->. discriminate H. Qed.

(** ** Splitting at a one-character separator *)

Lemma prefix_char (d c : ascii) (r : string) :
  prefix (String d "") (String c r) = Ascii.eqb d c.
Proof.
  simpl. destruct (ascii_dec d c) as [->|Hn].
  - rewrite Ascii.eqb_refl. now destruct r.
  - symmetry. now apply Ascii.eqb_neq.
Qed.

Lemma split_char_absent (d : ascii) (s : string) :
  all_chars (fun c => negb (Ascii.eqb d c)) s = true ->
  split (String d "") s = [s].
Proof.
  unfold split; induction s as [|c r IH]; [easy|].
  cbn [all_chars]; rewrite andb_true_iff; intros [Hc Hr].
  cbn [split_go]. rewrite prefix_char.
  apply negb_true_iff in Hc. rewrite Hc, (IH Hr). reflexivity.
Qed.

(** ** The lister *)

Lemma add_line_app (containers : list Container.t) (line : string) :
  add_line containers line = (containers ++ first_four_fields line)%list.
Proof.
  unfold add_line, first_four_fields, truthy.
  destruct (String.eqb_spec (strip line) "") as [He|Hne]; cbn [negb].
  - apply strip_by_empty in He.
    rewrite (split_char_absent "|" line).
    + now rewrite app_nil_r.
    + apply all_chars_impl with (2 := He). intros c Hc.
      apply negb_true_iff, Ascii.eqb_neq. intros E.
      now apply (is_space_not_pipe c Hc).
  - destruct (split "|" line) as [|a [|b [|c [|d rest]]]]; cbn;
      now rewrite ?app_nil_r.
Qed.

(** C10. The records the lister builds from the output are those of the lines
    that split into four pipe-separated fields or more, in the order of the
    lines; a line short of four fields gives nothing, and of a line with more
    only the first four are kept, so that a '|' inside the ports field cuts
    it there. *)
Theorem containers_of_stdout_first_four :
  (forall stdout : string,
      containers_of_stdout stdout
      = flat_map first_four_fields (split LF (strip stdout)))
  /\ first_four_fields "web|nginx|Up 2 hours" = []
  /\ first_four_fields "web|nginx|Up 2 hours|0.0.0.0:80->80/tcp|extra|more"
     = [Container.Build "web" "nginx" "Up 2 hours" "0.0.0.0:80->80/tcp"]
  /\ first_four_fields "web|nginx|Up 2 hours|80/tcp|443/tcp"
     = [Container.Build "web" "nginx" "Up 2 hours" "80/tcp"]
  /\ containers_of_stdout
       ("web|nginx|Up|0.0.0.0:80->80/tcp|x" ++ LF ++ "a|b|c" ++ LF ++ "   "
          ++ LF ++ "pg|postgres|Up|5432/tcp" ++ LF)
     = [Container.Build "web" "nginx" "Up" "0.0.0.0:80->80/tcp";
        Container.Build "pg" "postgres" "Up" "5432/tcp"].
Proof.
  split; [|repeat split; reflexivity].
  intros stdout. unfold containers_of_stdout.
  now rewrite (fold_left_ext_app add_line first_four_fields add_line_app).
Qed.

(** C9. When the runtime binary is absent, and when the runtime command exits
    with a non-zero status, the lister catches the exception: it prints one
    line and returns the empty list, and [process_containers] after it
    returns an empty catalog. *)
Theorem get_docker_containers_recovers
    (run : list string -> completed) (all_containers : bool) (e : exn)
    (Hrun : run (docker_cmd all_containers) = inl e)
    (He : e = FileNotFoundError \/ exists msg, e = CalledProcessError msg) :
  snd (get_docker_containers run all_containers) = inr []
  /\ snd (process_containers run all_containers) = inr []
  /\ List.length (fst (get_docker_containers run all_containers)) = 1%nat
  /\ (forall msg, e = CalledProcessError msg ->
        fst (get_docker_containers run all_containers)
        = ["Error running docker command: " ++ msg]).
Proof.
  unfold process_containers, get_docker_containers. rewrite Hrun.
  destruct He as [->|[msg ->]]; cbn; repeat split; try easy.
  intros msg' [= ->]. reflexivity.
Qed.

Lemma get_docker_containers_recovers_witness :
  let failing := fun _ : list string =>
                   @inl exn string (CalledProcessError "exit status 1") in
  let missing := fun _ : list string => @inl exn string FileNotFoundError in
  (snd (get_docker_containers failing true) = inr []
   /\ snd (process_containers failing true) = inr [])
  /\ (snd (get_docker_containers missing false) = inr []
      /\ snd (process_containers missing false) = inr []).
Proof.
  intros failing missing. split.
  - destruct (get_docker_containers_recovers failing true
                (CalledProcessError "exit status 1") eq_refl
                (or_intror (ex_intro _ "exit status 1" eq_refl)))
      as (H1 & H2 & _).
    split; [exact H1 | exact H2].
  - destruct (get_docker_containers_recovers missing false
                FileNotFoundError eq_refl (or_introl eq_refl))
      as (H1 & H2 & _).
    split; [exact H1 | exact H2].
Defined.

(** ** The classifier *)

Lemma any_keyword_sym (keywords : list string) (a b : string) :
  any_keyword keywords a b = any_keyword keywords b a.
Proof.
  induction keywords as [|k r IH]; simpl; [easy|].
  now rewrite orb_comm, IH.
Qed.

Lemma any_keyword_spec (keywords : list string) (a b : string) :
  any_keyword keywords a b = true <->
  exists keyword, In keyword keywords
                  /\ (contains keyword a = true \/ contains keyword b = true).
Proof.
  induction keywords as [|k r IH]; simpl.
  - split; [discriminate | intros (? & [] & _)].
  - destruct (contains k a || contains k b) eqn:Hk.
    + split; [intros _ | easy].
      exists k. split; [now left | now apply orb_true_iff].
    + rewrite IH. apply orb_false_iff in Hk as [Ha Hb].
      split; intros (kw & Hin & Hc).
      * exists kw. split; [now right | easy].
      * destruct Hin as [<-|Hin]; [|now exists kw].
        destruct Hc as [Hc|Hc]; congruence.
Qed.

(** C5, the classifier as the code has it: a container is infrastructure
    when a keyword of the vocabulary occurs in its case-folded name or in its
    case-folded image, so that the two fields can be exchanged;
    [("myapp", "postgres:15")] is infrastructure and
    [("webapp", "myorg/webapp:latest")] is not, and neither is
    [("mypg", "alpine")], since no keyword occurs in "mypg" or in "alpine". *)
Theorem is_database_container_symmetric :
  (forall name image,
      is_database_container name image = is_database_container image name)
  /\ (forall name image,
        is_database_container name image = true <->
        exists keyword,
          In keyword database_keywords
          /\ (contains keyword (lower name) = true
              \/ contains keyword (lower image) = true))
  /\ is_database_container "mypg" "alpine" = false
  /\ is_database_container "alpine" "mypg" = false
  /\ is_database_container "myapp" "postgres:15" = true
  /\ is_database_container "postgres:15" "myapp" = true
  /\ is_database_container "webapp" "myorg/webapp:latest" = false.
Proof.
  split; [|split; [|repeat split; reflexivity]].
  - intros name image. apply any_keyword_sym.
  - intros name image. apply any_keyword_spec.
Qed.

(** C5 as the specification has it fails on its first instance. *)
Lemma is_database_container_mypg_alpine :
  is_database_container "mypg" "alpine" = false
  /\ forallb (fun keyword => negb (contains keyword "mypg")
                             && negb (contains keyword "alpine"))
             database_keywords = true.
Proof. split; reflexivity. Qed.

(** ** Digit runs *)

Lemma digits_prefix_spec (s : string) :
  exists post,
    s = digits_prefix s ++ post
    /\ all_chars is_digit (digits_prefix s) = true
    /\ starts_with_digit post = false.
Proof.
  induction s as [|c r (post & Hs & Hd & Hp)]; simpl.
  - now exists "".
  - destruct (is_digit c) eqn:Hc.
    + exists post. simpl. rewrite Hc, Hd. now rewrite <- Hs.
    + exists (String c r). simpl. now rewrite Hc.
Qed.

Lemma digits_prefix_run (run post : string) :
  all_chars is_digit run = true -> starts_with_digit post = false ->
  digits_prefix (run ++ post) = run.
Proof.
  intros Hrun Hpost; induction run as [|c r IH]; simpl in *.
  - destruct post as [|d post]; [easy|]. simpl in *. now rewrite Hpost.
  - apply andb_true_iff in Hrun as [Hc Hr]. now rewrite Hc, IH.
Qed.

Lemma starts_with_digit_prefix (s : string) :
  starts_with_digit s = true -> digit_string (digits_prefix s) = true.
Proof.
  intros Hst. unfold digit_string.
  destruct (digits_prefix_spec s) as (post & _ & Hd & _). rewrite Hd.
  destruct s as [|c r]; simpl in *; [discriminate|]. now rewrite Hst.
Qed.

Lemma digit_string_starts (run post : string) :
  digit_string run = true -> starts_with_digit (run ++ post) = true.
Proof.
  unfold digit_string, truthy. destruct run as [|c r]; simpl; [discriminate|].
  now rewrite andb_true_iff.
Qed.

Lemma search_digits_first_run (s run : string) :
  search_digits s = Some run <-> first_run s run.
Proof.
  split.
  - induction s as [|c r IH]; simpl; [discriminate|].
    destruct (is_digit c) eqn:Hc.
    + intros [= <-].
      destruct (digits_prefix_spec (String c r)) as (post & Hs & Hd & Hp).
      exists "", post. simpl in *. rewrite Hc in *.
      repeat split; easy.
    + intros H. destruct (IH H) as (pre & post & -> & Hpre & Hrun & Hpost).
      exists (String c pre), post. simpl. unfold not_digit at 1.
      now rewrite Hc.
  - intros (pre & post & -> & Hpre & Hrun & Hpost).
    induction pre as [|c pre IH]; simpl in *.
    + pose proof (digit_string_starts run post Hrun) as Hst.
      unfold digit_string in Hrun. apply andb_true_iff in Hrun as [_ Hd].
      pose proof (digits_prefix_run run post Hd Hpost) as Hdp.
      destruct (run ++ post) as [|c r]; [discriminate|].
      cbn [search_digits]. cbn [starts_with_digit] in Hst.
      now rewrite Hst, Hdp.
    + apply andb_true_iff in Hpre as [Hc Hpre].
      unfold not_digit in Hc. apply negb_true_iff in Hc. rewrite Hc.
      now apply IH.
Qed.

Lemma search_colon_digits_first_run (s run : string) :
  search_colon_digits s = Some run <-> first_run_after_colon s run.
Proof.
  split.
  - induction s as [|c r IH]; simpl; [discriminate|].
    destruct (Ascii.eqb c ":" && starts_with_digit r) eqn:Hc.
    + intros [= <-]. apply andb_true_iff in Hc as [Hc Hr].
      apply Ascii.eqb_eq in Hc as ->.
      destruct (digits_prefix_spec r) as (post & Hs & Hd & Hp).
      exists "", post. simpl. rewrite <- Hs.
      repeat split; try easy. now apply starts_with_digit_prefix.
    + intros H. destruct (IH H) as (pre & post & -> & Hpre & Hrun & Hpost).
      exists (String c pre), post. simpl. rewrite Hpre, orb_false_r.
      repeat split; try easy.
      apply andb_false_iff in Hc as [Hc|Hc]; [now rewrite Hc|].
      destruct pre as [|d pre]; simpl in *.
      * now rewrite andb_false_r.
      * now rewrite Hc, andb_false_r.
  - intros (pre & post & -> & Hpre & Hrun & Hpost).
    induction pre as [|c pre IH]; simpl in *.
    + rewrite (digit_string_starts run post Hrun). simpl. f_equal.
      unfold digit_string in Hrun. apply andb_true_iff in Hrun as [_ Hd].
      now apply digits_prefix_run.
    + apply orb_false_iff in Hpre as [Hc Hpre].
      rewrite (IH Hpre).
      destruct (Ascii.eqb c ":") eqn:Ec; [|easy]. simpl in *.
      destruct pre as [|d pre]; simpl in *; [easy|]. now rewrite Hc.
Qed.

(** ** Stripping keeps the digit runs *)

Lemma lstrip_by_app (p : ascii -> bool) (s : string) :
  exists t, s = t ++ lstrip_by p s /\ all_chars p t = true.
Proof.
  induction s as [|c r (t & Hr & Ht)]; simpl.
  - now exists "".
  - destruct (p c) eqn:Hc.
    + exists (String c t). simpl. now rewrite Hc, Ht, <- Hr.
    + now exists "".
Qed.

Lemma rstrip_by_app (p : ascii -> bool) (s : string) :
  exists t, s = rstrip_by p s ++ t /\ all_chars p t = true.
Proof.
  induction s as [|c r (t & Hr & Ht)]; simpl.
  - now exists "".
  - destruct (rstrip_by p r) as [|d r'] eqn:E.
    + destruct (p c) eqn:Hc.
      * exists (String c t). simpl in *. now rewrite Hc, Ht, <- Hr.
      * exists t. simpl in *. now subst r.
    + exists t. simpl in *. split; [now f_equal | exact Ht].
Qed.

Lemma strip_by_app (p : ascii -> bool) (s : string) :
  exists t1 t2,
    s = t1 ++ strip_by p s ++ t2
    /\ all_chars p t1 = true /\ all_chars p t2 = true.
Proof.
  unfold strip_by.
  destruct (lstrip_by_app p s) as (t1 & H1 & Ht1).
  destruct (rstrip_by_app p (lstrip_by p s)) as (t2 & H2 & Ht2).
  exists t1, t2. now rewrite <- H2.
Qed.

Lemma append_assoc (a b c : string) : (a ++ b) ++ c = a ++ (b ++ c).
Proof. induction a as [|x a IH]; simpl; [easy | now rewrite IH]. Qed.

Lemma append_nil_r (a : string) : a ++ "" = a.
Proof. induction a as [|x a IH]; simpl; [easy | now rewrite IH]. Qed.

Lemma all_chars_app (p : ascii -> bool) (a b : string) :
  all_chars p (a ++ b) = all_chars p a && all_chars p b.
Proof.
  induction a as [|x a IH]; simpl; [easy|]. now rewrite IH, andb_assoc.
Qed.

Lemma is_space_not_digit (c : ascii) : is_space c = true -> is_digit c = false.
Proof.
  intros H. destruct (is_digit c) eqn:Hd; [|easy].
  destruct c as [[] [] [] [] [] [] [] []]; discriminate.
Qed.

Lemma is_space_not_colon (c : ascii) :
  is_space c = true -> Ascii.eqb c ":" = false.
Proof.
  intros H. apply Ascii.eqb_neq. intros ->. discriminate H.
Qed.

Lemma spaces_no_digit_start (t post : string) :
  all_chars is_space t = true -> starts_with_digit post = false ->
  starts_with_digit (post ++ t) = false.
Proof.
  intros Ht Hp. destruct post as [|c post]; simpl in *; [|easy].
  destruct t as [|d t]; simpl in *; [easy|].
  apply andb_true_iff in Ht as [Hd _]. now apply is_space_not_digit.
Qed.

Lemma spaces_colon_then_digit (t pre : string) :
  all_chars is_space t = true ->
  colon_then_digit (t ++ pre) = colon_then_digit pre.
Proof.
  intros Ht; induction t as [|c t IH]; simpl in *; [easy|].
  apply andb_true_iff in Ht as [Hc Ht].
  now rewrite (is_space_not_colon c Hc), IH.
Qed.

Lemma first_run_strip (s run : string) :
  first_run (strip s) run -> first_run s run.
Proof.
  intros (pre & post & Hs & Hpre & Hrun & Hpost).
  destruct (strip_by_app is_space s) as (t1 & t2 & E & Ht1 & Ht2).
  fold (strip s) in E. rewrite Hs in E.
  exists (t1 ++ pre), (post ++ t2). repeat split.
  - rewrite E. now rewrite !append_assoc.
  - rewrite all_chars_app, Hpre, andb_true_r.
    apply all_chars_impl with (2 := Ht1). intros c Hc.
    unfold not_digit. now rewrite (is_space_not_digit c Hc).
  - exact Hrun.
  - now apply spaces_no_digit_start.
Qed.

Lemma first_run_after_colon_strip (s run : string) :
  first_run_after_colon (strip s) run -> first_run_after_colon s run.
Proof.
  intros (pre & post & Hs & Hpre & Hrun & Hpost).
  destruct (strip_by_app is_space s) as (t1 & t2 & E & Ht1 & Ht2).
  fold (strip s) in E. rewrite Hs in E.
  exists (t1 ++ pre), (post ++ t2). repeat split.
  - rewrite E. now rewrite !append_assoc.
  - now rewrite spaces_colon_then_digit.
  - exact Hrun.
  - now apply spaces_no_digit_start.
Qed.

(** ** Joining what [split] gives *)

Lemma split_go_not_nil (sep : string) (s : string) (k : nat) :
  split_go sep k s <> [].
Proof.
  revert k; induction s as [|c r IH]; intros k; cbn [split_go]; [easy|].
  destruct k; [|apply IH].
  destruct (prefix sep (String c r)); [easy|].
  destruct (split_go sep 0 r); easy.
Qed.

Lemma prefix_drop (p s : string) :
  prefix p s = true -> s = p ++ drop (length p) s.
Proof.
  revert s; induction p as [|c p IH]; intros [|d s]; simpl; try easy.
  destruct (ascii_dec c d) as [->|]; [|discriminate].
  intros H. now rewrite <- (IH s H).
Qed.

Lemma concat_cons_head (sep : string) (c : ascii) (w : string)
    (ws : list string) :
  concat sep (String c w :: ws) = String c (concat sep (w :: ws)).
Proof. destruct ws; reflexivity. Qed.

Lemma concat_split_go (sep : string) (s : string) (k : nat) :
  sep <> "" -> concat sep (split_go sep k s) = drop k s.
Proof.
  intros Hsep; revert k; induction s as [|c r IH]; intros k.
  - now destruct k.
  - destruct k as [|k]; [|apply IH].
    cbn [split_go drop].
    destruct (prefix sep (String c r)) eqn:Hp.
    + pose proof (split_go_not_nil sep r (length sep - 1)) as Hne.
      pose proof (IH (length sep - 1)%nat) as Hc.
      destruct (split_go sep (length sep - 1) r) as [|w ws]; [easy|].
      change (concat sep ("" :: w :: ws)) with ("" ++ sep ++ concat sep (w :: ws)).
      rewrite Hc. cbn [append].
      apply prefix_drop in Hp. destruct sep as [|d sep]; [easy|].
      cbn in Hp. injection Hp as -> Hr.
      cbn [length]. rewrite Nat.sub_succ, Nat.sub_0_r. cbn [append].
      now rewrite <- Hr.
    + pose proof (split_go_not_nil sep r 0) as Hne.
      pose proof (IH 0%nat) as Hc.
      destruct (split_go sep 0 r) as [|w ws]; [easy|].
      rewrite concat_cons_head, Hc. now destruct r.
Qed.

Lemma split_two (sep s a b : string) :
  sep <> "" -> split sep s = [a; b] -> s = a ++ sep ++ b.
Proof.
  intros Hsep H. pose proof (concat_split_go sep s 0 Hsep) as Hc.
  unfold split in H. rewrite H in Hc. cbn in Hc.
  destruct s; cbn in Hc; now rewrite <- Hc.
Qed.

(** ** The port parser *)

Lemma parse_ports_clauses (ports_str : string) :
  parse_ports ports_str
  = if ports_str =? "" then []
    else flat_map parse_mapping (split "," ports_str).
Proof.
  unfold parse_ports, truthy.
  destruct (ports_str =? ""); cbn [negb orb]; [easy|].
  now rewrite fold_left_app_flat_map.
Qed.

Lemma parse_ports_flat (ports_str : string) :
  parse_ports ports_str = flat_map parse_mapping (split "," ports_str).
Proof.
  rewrite parse_ports_clauses.
  destruct (String.eqb_spec ports_str "") as [->|_]; reflexivity.
Qed.

Lemma parse_mapping_arrow (mapping : string) :
  contains "->" (strip mapping) = true ->
  parse_mapping mapping
  = match split "->" (strip mapping) with
    | [p0; p1] =>
        match search_colon_digits (strip p0), search_digits (strip p1) with
        | Some host_port, Some container_port => [(host_port, container_port)]
        | _, _ => []
        end
    | _ => []
    end.
Proof. intros H. unfold parse_mapping. now rewrite H. Qed.

Lemma parse_mapping_arrow_cases (mapping host_port container_port : string) :
  contains "->" (strip mapping) = true ->
  In (host_port, container_port) (parse_mapping mapping) ->
  parse_mapping mapping = [(host_port, container_port)]
  /\ exists left right,
       split "->" (strip mapping) = [left; right]
       /\ search_colon_digits (strip left) = Some host_port
       /\ search_digits (strip right) = Some container_port.
Proof.
  intros Harrow Hemit.
  rewrite (parse_mapping_arrow mapping Harrow) in Hemit |- *.
  destruct (split "->" (strip mapping)) as [|p0 [|p1 [|]]] eqn:Hsplit;
    try contradiction.
  destruct (search_colon_digits (strip p0)) as [h|] eqn:Hh;
    [|contradiction].
  destruct (search_digits (strip p1)) as [c|] eqn:Hc; [|contradiction].
  destruct Hemit as [[= <- <-]|[]].
  split; [reflexivity|]. now exists p0, p1.
Qed.

Lemma first_run_after_colon_unique (s a b : string) :
  first_run_after_colon s a -> first_run_after_colon s b -> a = b.
Proof.
  intros Ha Hb. apply search_colon_digits_first_run in Ha, Hb. congruence.
Qed.

Lemma first_run_after_colon_run (s run : string) :
  first_run_after_colon s run -> run_after_colon s run.
Proof.
  intros (pre & post & Hs & _ & Hrun & Hpost). now exists pre, post.
Qed.

(** C4, the arrow branch as the code has it: a clause with "->" gives a
    mapping only when exactly one "->" cuts it in a left and a right segment;
    the host port is then a full run of digits that directly follows a ':'
    of the left segment, it is the port whenever the left segment reads
    [<iface>:<port>] with no ':' followed by a digit inside [<iface>], and
    the container port is the first run of digits of the right segment. *)
Theorem parse_mapping_arrow_runs
    (mapping host_port container_port : string)
    (Harrow : contains "->" (strip mapping) = true)
    (Hemit : In (host_port, container_port) (parse_mapping mapping)) :
  parse_mapping mapping = [(host_port, container_port)]
  /\ exists left right,
       split "->" (strip mapping) = [left; right]
       /\ strip mapping = left ++ "->" ++ right
       /\ run_after_colon left host_port
       /\ (forall iface port rest,
              left = iface ++ ":" ++ port ++ rest ->
              colon_then_digit iface = false ->
              digit_string port = true ->
              starts_with_digit rest = false ->
              host_port = port)
       /\ first_run right container_port.
Proof.
  destruct (parse_mapping_arrow_cases _ _ _ Harrow Hemit)
    as (Hone & left & right & Hsplit & Hh & Hc).
  split; [exact Hone|]. exists left, right.
  apply search_colon_digits_first_run, first_run_after_colon_strip in Hh.
  apply search_digits_first_run, first_run_strip in Hc.
  split; [exact Hsplit|]. split; [now apply split_two|].
  split; [now apply first_run_after_colon_run|]. split; [|exact Hc].
  intros iface port rest Hl Hi Hp Hr.
  apply (first_run_after_colon_unique left); [exact Hh|].
  now exists iface, rest.
Qed.

Lemma parse_mapping_arrow_runs_witness :
  parse_mapping " [::]:9090->90/tcp" = [("9090", "90")]
  /\ exists left right,
       split "->" (strip " [::]:9090->90/tcp") = [left; right]
       /\ strip " [::]:9090->90/tcp" = left ++ "->" ++ right
       /\ run_after_colon left "9090"
       /\ (forall iface port rest,
              left = iface ++ ":" ++ port ++ rest ->
              colon_then_digit iface = false ->
              digit_string port = true ->
              starts_with_digit rest = false ->
              "9090" = port)
       /\ first_run right "90".
Proof.
  apply (parse_mapping_arrow_runs " [::]:9090->90/tcp" "9090" "90").
  - reflexivity.
  - simpl. left. reflexivity.
Defined.

(** C4 as the specification has it fails on an IPv4 interface: the first run
    of digits of the left segment is the first octet of the address, and the
    parser gives the port. *)
Lemma parse_mapping_host_port_not_first_run :
  parse_mapping "0.0.0.0:8080->80/tcp" = [("8080", "80")]
  /\ split "->" (strip "0.0.0.0:8080->80/tcp") = ["0.0.0.0:8080"; "80/tcp"]
  /\ first_run "0.0.0.0:8080" "0"
  /\ ~ first_run "0.0.0.0:8080" "8080".
Proof.
  repeat split; try reflexivity.
  - now apply search_digits_first_run.
  - intros H. apply search_digits_first_run in H. discriminate H.
Qed.

(** On the arrow branch both components are digit strings. *)
Lemma parse_mapping_arrow_digits (mapping : string) :
  contains "->" (strip mapping) = true ->
  forallb digit_pair (parse_mapping mapping) = true.
Proof.
  intros Harrow. apply forallb_forall. intros [h c] Hin.
  destruct (parse_mapping_arrow_cases _ _ _ Harrow Hin)
    as (_ & left & right & _ & Hh & Hc).
  apply search_colon_digits_first_run in Hh as (? & ? & _ & _ & Hh & _).
  apply search_digits_first_run in Hc as (? & ? & _ & _ & Hc & _).
  unfold digit_pair. cbn [fst snd]. now rewrite Hh, Hc.
Qed.

Lemma parse_ports_arrow_digits (ports_str : string) :
  forallb (fun mapping => contains "->" (strip mapping))
          (split "," ports_str) = true ->
  forallb digit_pair (parse_ports ports_str) = true.
Proof.
  rewrite parse_ports_clauses. destruct (ports_str =? ""); [easy|].
  induction (split "," ports_str) as [|m ms IH]; [easy|].
  cbn [forallb flat_map]. rewrite andb_true_iff. intros [Hm Hms].
  rewrite forallb_app, (parse_mapping_arrow_digits m Hm). now apply IH.
Qed.

(** *** Explicit clauses whose interface holds no ':' before a digit *)

Lemma rstrip_by_id (p : ascii -> bool) (s : string) :
  all_chars (fun c => negb (p c)) s = true -> rstrip_by p s = s.
Proof.
  induction s as [|c r IH]; [easy|]. cbn [all_chars rstrip_by].
  rewrite andb_true_iff, negb_true_iff. intros [Hc Hr].
  rewrite (IH Hr), Hc. now destruct r.
Qed.

Lemma strip_by_id (p : ascii -> bool) (s : string) :
  all_chars (fun c => negb (p c)) s = true -> strip_by p s = s.
Proof.
  intros H. unfold strip_by.
  assert (Hl : lstrip_by p s = s).
  { destruct s as [|c r]; [easy|]. cbn in *.
    apply andb_true_iff in H as [Hc _]. apply negb_true_iff in Hc.
    now rewrite Hc. }
  rewrite Hl. now apply rstrip_by_id.
Qed.

Lemma prefix_app (p s : string) : prefix p (p ++ s) = true.
Proof.
  induction p as [|c p IH]; simpl; [now destruct s|].
  destruct (ascii_dec c c); [exact IH | easy].
Qed.

Lemma contains_app (sub a b : string) : contains sub (a ++ sub ++ b) = true.
Proof.
  induction a as [|c a IH].
  - cbn [append]. destruct (sub ++ b) eqn:E; cbn [contains];
      rewrite <- E, prefix_app; reflexivity.
  - cbn [append contains]. rewrite IH. apply orb_true_r.
Qed.

Lemma split_char_app (d : ascii) (a b : string) :
  all_chars (fun c => negb (Ascii.eqb d c)) a = true ->
  split (String d "") (a ++ String d b) = a :: split (String d "") b.
Proof.
  unfold split; induction a as [|c a IH]; cbn [all_chars append].
  - intros _. cbn [split_go]. now rewrite prefix_char, Ascii.eqb_refl.
  - rewrite andb_true_iff, negb_true_iff. intros [Hc Ha].
    cbn [split_go]. now rewrite prefix_char, Hc, (IH Ha).
Qed.

Lemma prefix_arrow (c : ascii) (r : string) :
  prefix "->" (String c r)
  = Ascii.eqb "-" c && match r with
                       | "" => false
                       | String d _ => Ascii.eqb ">" d
                       end.
Proof.
  cbn [prefix]. destruct (ascii_dec "-" c) as [<-|Hn].
  - destruct r as [|d r]; [reflexivity|]. cbn [prefix].
    destruct (ascii_dec ">" d) as [<-|Hd]; [now destruct r|].
    apply Ascii.eqb_neq in Hd. now rewrite Hd.
  - apply Ascii.eqb_neq in Hn. now rewrite Hn.
Qed.

Lemma split_arrow_absent (s : string) :
  all_chars not_gt s = true -> split "->" s = [s].
Proof.
  unfold split; induction s as [|c r IH]; [easy|].
  cbn [all_chars]. rewrite andb_true_iff. intros [Hc Hr].
  cbn [split_go]. rewrite prefix_arrow, (IH Hr).
  destruct r as [|d r]; [now rewrite andb_false_r|].
  cbn [all_chars] in Hr. apply andb_true_iff in Hr as [Hd _].
  unfold not_gt in Hd. apply negb_true_iff in Hd.
  now rewrite Hd, andb_false_r.
Qed.

Lemma split_arrow_app (a b : string) :
  all_chars not_gt a = true ->
  split "->" (a ++ "->" ++ b) = a :: split "->" b.
Proof.
  unfold split; induction a as [|c a IH]; cbn [all_chars append] in *.
  - intros _. cbn [split_go]. rewrite prefix_arrow. reflexivity.
  - rewrite andb_true_iff. intros [Hc Ha].
    cbn [split_go]. rewrite prefix_arrow, (IH Ha).
    destruct a as [|d a]; cbn [append].
    + now rewrite andb_false_r.
    + cbn [all_chars] in Ha. apply andb_true_iff in Ha as [Hd _].
      unfold not_gt in Hd. apply negb_true_iff in Hd.
      now rewrite Hd, andb_false_r.
Qed.

Lemma digit_plain (c : ascii) : is_digit c = true -> plain c = true.
Proof.
  intros H. destruct (plain c) eqn:Hp; [easy|].
  destruct c as [[] [] [] [] [] [] [] []]; discriminate.
Qed.

Lemma digit_string_plain (s : string) :
  digit_string s = true -> all_chars plain s = true.
Proof.
  unfold digit_string. rewrite andb_true_iff. intros [_ H].
  apply all_chars_impl with (2 := H). exact digit_plain.
Qed.

Lemma plain_not_gt (s : string) :
  all_chars plain s = true -> all_chars not_gt s = true.
Proof.
  apply all_chars_impl. intros c. unfold plain, not_gt.
  now rewrite !andb_true_iff.
Qed.

Lemma plain_no_space_comma (s : string) :
  all_chars plain s = true -> all_chars no_space_comma s = true.
Proof.
  apply all_chars_impl. intros c. unfold plain, no_space_comma.
  now rewrite !andb_true_iff.
Qed.

Section Explicit.
Variable c : Clause.t.
Hypothesis Hwf : well_formed c = true.

Let left_part : string := Clause.iface c ++ ":" ++ Clause.host c.
Let right_part : string := Clause.cont c ++ "/" ++ Clause.proto c.

Lemma well_formed_parts :
  digit_string (Clause.host c) = true
  /\ digit_string (Clause.cont c) = true
  /\ all_chars plain (Clause.iface c) = true
  /\ all_chars plain (Clause.proto c) = true
  /\ colon_then_digit (Clause.iface c) = false.
Proof.
  unfold well_formed in Hwf. rewrite !andb_true_iff, negb_true_iff in Hwf.
  tauto.
Qed.

Lemma render_parts : render c = left_part ++ "->" ++ right_part.
Proof.
  unfold render, left_part, right_part. now rewrite !append_assoc.
Qed.

Lemma left_part_plain : all_chars plain left_part = true.
Proof.
  destruct well_formed_parts as (Hh & _ & Hi & _ & _).
  unfold left_part. rewrite !all_chars_app, Hi, (digit_string_plain _ Hh).
  reflexivity.
Qed.

Lemma right_part_plain : all_chars plain right_part = true.
Proof.
  destruct well_formed_parts as (_ & Hc & _ & Hp & _).
  unfold right_part. rewrite !all_chars_app, Hp, (digit_string_plain _ Hc).
  reflexivity.
Qed.

Lemma render_no_space_comma : all_chars no_space_comma (render c) = true.
Proof.
  rewrite render_parts, !all_chars_app.
  rewrite (plain_no_space_comma _ left_part_plain).
  rewrite (plain_no_space_comma _ right_part_plain). reflexivity.
Qed.

Lemma strip_plain (s : string) : all_chars plain s = true -> strip s = s.
Proof.
  intros H. apply strip_by_id. apply all_chars_impl with (2 := H).
  intros x. unfold plain. now rewrite !andb_true_iff.
Qed.

Lemma strip_render : strip (render c) = render c.
Proof.
  apply strip_by_id. apply all_chars_impl with (2 := render_no_space_comma).
  intros x. unfold no_space_comma. now rewrite andb_true_iff.
Qed.

Lemma parse_mapping_render :
  parse_mapping (render c) = [(Clause.host c, Clause.cont c)].
Proof.
  destruct well_formed_parts as (Hh & Hc & Hi & Hp & Hcd).
  rewrite parse_mapping_arrow; rewrite strip_render, render_parts;
    [|apply contains_app].
  rewrite (split_arrow_app _ _ (plain_not_gt _ left_part_plain)).
  rewrite (split_arrow_absent _ (plain_not_gt _ right_part_plain)).
  rewrite (strip_plain _ left_part_plain), (strip_plain _ right_part_plain).
  assert (Hl : search_colon_digits left_part = Some (Clause.host c)).
  { apply search_colon_digits_first_run.
    exists (Clause.iface c), "". now rewrite append_nil_r. }
  assert (Hr : search_digits right_part = Some (Clause.cont c)).
  { apply search_digits_first_run.
    exists "", ("/" ++ Clause.proto c). now repeat split. }
  now rewrite Hl, Hr.
Qed.

Lemma parse_mapping_space_render :
  parse_mapping (" " ++ render c) = [(Clause.host c, Clause.cont c)].
Proof. rewrite <- parse_mapping_render. reflexivity. Qed.

Lemma render_no_comma :
  all_chars (fun x => negb (Ascii.eqb "," x)) (render c) = true.
Proof.
  apply all_chars_impl with (2 := render_no_space_comma).
  intros x. unfold no_space_comma. now rewrite andb_true_iff.
Qed.
End Explicit.

Lemma split_comma_join (pre : string) (r : string) (rs : list string) :
  all_chars (fun x => negb (Ascii.eqb "," x)) pre = true ->
  Forall (fun r => all_chars (fun x => negb (Ascii.eqb "," x)) r = true)
         (r :: rs) ->
  split "," (pre ++ join ", " (r :: rs))
  = (pre ++ r) :: map (fun r => " " ++ r) rs.
Proof.
  revert pre r; induction rs as [|r' rs IH]; intros pre r Hpre Hrs;
    inversion Hrs as [|? ? Hr Hrs']; subst.
  - cbn [join concat map]. apply split_char_absent.
    now rewrite all_chars_app, Hpre, Hr.
  - change (join ", " (r :: r' :: rs))
      with (r ++ ", " ++ join ", " (r' :: rs)).
    rewrite <- append_assoc.
    change (", " ++ join ", " (r' :: rs))
      with (String "," (" " ++ join ", " (r' :: rs))).
    rewrite split_char_app by now rewrite all_chars_app, Hpre, Hr.
    now rewrite IH.
Qed.

(** A string of explicit clauses [<iface>:<host>-><cont>/<proto>] joined by
    ", " parses to the ports of its clauses, one mapping for each, when no
    ':' of an interface is followed by a digit. *)
Lemma parse_ports_explicit_clauses (cs : list Clause.t) :
  forallb well_formed cs = true ->
  parse_ports (join ", " (map render cs))
  = map (fun c => (Clause.host c, Clause.cont c)) cs.
Proof.
  intros Hwf. destruct cs as [|c cs]; [reflexivity|].
  rewrite parse_ports_flat.
  assert (Hcommas : Forall (fun r => all_chars (fun x => negb (Ascii.eqb "," x))
                                               r = true)
                           (map render (c :: cs))).
  { apply Forall_map, Forall_forall. intros x Hx.
    apply render_no_comma. rewrite forallb_forall in Hwf. now apply Hwf. }
  pose proof (split_comma_join "" (render c) (map render cs) eq_refl Hcommas)
    as Hsplit.
  cbn [append map] in Hsplit |- *.
  rewrite Hsplit. cbn [flat_map forallb] in *.
  apply andb_true_iff in Hwf as [Hc Hcs].
  rewrite (parse_mapping_render c Hc). cbn [app]. f_equal.
  clear Hsplit Hcommas. induction cs as [|c' cs IH]; [reflexivity|].
  cbn [forallb] in Hcs. apply andb_true_iff in Hcs as [Hc' Hcs].
  cbn [map flat_map].
  change (String " " (render c')) with (" " ++ render c').
  rewrite (parse_mapping_space_render c' Hc').
  cbn [app]. f_equal. now apply IH.
Qed.

Example parse_ports_explicit_instance :
  let cs := [Clause.Build "0.0.0.0" "8080" "80" "tcp";
             Clause.Build "[::]" "9090" "90" "tcp";
             Clause.Build "" "443" "8443" "udp"] in
  forallb well_formed cs = true
  /\ join ", " (map render cs)
     = "0.0.0.0:8080->80/tcp, [::]:9090->90/tcp, :443->8443/udp"
  /\ parse_ports (join ", " (map render cs))
     = [("8080", "80"); ("9090", "90"); ("443", "8443")]
  /\ well_formed (Clause.Build "[::1]" "8080" "80" "tcp") = false.
Proof. repeat split; reflexivity. Qed.

(** C1. The shorthand branch gives the text before the first ':' and the
    text between the first ':' and the next ':' or '/', whatever they hold:
    a host interface in place of the port, a bracket, or nothing. *)
Theorem parse_ports_shorthand_unchecked :
  parse_ports "127.0.0.1:8080:80/tcp" = [("127.0.0.1", "8080")]
  /\ digit_string "127.0.0.1" = false
  /\ parse_ports "[::]:8080/tcp" = [("[", "")]
  /\ digit_string "[" = false
  /\ digit_string "" = false
  /\ parse_ports "0.0.0.0:80->80/tcp, localhost:9000/tcp"
     = [("80", "80"); ("localhost", "9000")]
  /\ digit_string "localhost" = false.
Proof. repeat split; reflexivity. Qed.

(** C3. On a bracketed IPv6 interface that holds a ':' followed by a digit,
    the parser gives the digits inside the address in place of the host
    port; on the instances of the specification it gives what is stated. *)
Theorem parse_ports_ipv6_literal :
  parse_ports "[::1]:8080->80/tcp" = [("1", "80")]
  /\ parse_ports "0.0.0.0:8080->80/tcp, [::1]:8080->80/tcp"
     = [("8080", "80"); ("1", "80")]
  /\ parse_ports "0.0.0.0:8080->80/tcp, [::]:9090->90/tcp"
     = [("8080", "80"); ("9090", "90")]
  /\ parse_ports ":8080->80/tcp" = [("8080", "80")]
  /\ parse_ports "5432:5432/tcp" = [("5432", "5432")]
  /\ parse_ports "::" = []
  /\ parse_ports "80/tcp, :::" = [].
Proof. repeat split; reflexivity. Qed.

(** ** The order on strings *)

Lemma ascii_compare_refl (a : ascii) : Ascii.compare a a = Eq.
Proof. unfold Ascii.compare. apply BinNat.N.compare_refl. Qed.

Lemma string_compare_refl (s : string) : String.compare s s = Eq.
Proof.
  induction s as [|c r IH]; simpl; [easy|]. now rewrite ascii_compare_refl.
Qed.

Lemma leb_refl (s : string) : String.leb s s = true.
Proof. unfold String.leb. now rewrite string_compare_refl. Qed.

Lemma ascii_compare_lt_trans (a b c : ascii) :
  Ascii.compare a b = Lt -> Ascii.compare b c = Lt -> Ascii.compare a c = Lt.
Proof.
  unfold Ascii.compare. rewrite !BinNat.N.compare_lt_iff.
  apply BinNat.N.lt_trans.
Qed.

Lemma leb_trans (s1 s2 s3 : string) :
  String.leb s1 s2 = true -> String.leb s2 s3 = true ->
  String.leb s1 s3 = true.
Proof.
  unfold String.leb. revert s2 s3.
  induction s1 as [|a s1 IH]; intros [|b s2] [|c s3]; simpl; try easy.
  destruct (Ascii.compare a b) eqn:Hab; try easy;
    destruct (Ascii.compare b c) eqn:Hbc; try easy.
  - apply Ascii.compare_eq_iff in Hab as ->.
    apply Ascii.compare_eq_iff in Hbc as ->.
    rewrite ascii_compare_refl. apply IH.
  - apply Ascii.compare_eq_iff in Hab as ->. now rewrite Hbc.
  - apply Ascii.compare_eq_iff in Hbc as <-. now rewrite Hab.
  - now rewrite (ascii_compare_lt_trans a b c Hab Hbc).
Qed.

(** ** The stable sort *)

Section SortFacts.
Context {A : Type} (key : A -> string).

Let le (a b : A) : Prop := String.leb (key a) (key b) = true.

Lemma insert_by_key_perm (x : A) (l : list A) :
  Permutation (insert_by_key key x l) (x :: l).
Proof.
  induction l as [|y r IH]; simpl; [easy|].
  destruct (String.leb (key x) (key y)); [easy|].
  rewrite IH. apply perm_swap.
Qed.

Lemma sort_by_key_perm (l : list A) : Permutation (sort_by_key key l) l.
Proof.
  induction l as [|x l IH]; simpl; [easy|].
  rewrite insert_by_key_perm. now constructor.
Qed.

Lemma insert_by_key_sorted (x : A) (l : list A) :
  StronglySorted le l -> StronglySorted le (insert_by_key key x l).
Proof.
  induction l as [|y r IH]; intros Hs; simpl.
  - repeat constructor.
  - inversion Hs as [|? ? Hr Hy]; subst.
    destruct (String.leb (key x) (key y)) eqn:Hxy.
    + constructor; [exact Hs|]. constructor; [exact Hxy|].
      apply Forall_impl with (2 := Hy). intros z Hz.
      exact (leb_trans _ _ _ Hxy Hz).
    + constructor; [now apply IH|].
      apply (Permutation_Forall (x := x :: r)).
      * symmetry. apply insert_by_key_perm.
      * constructor; [|exact Hy].
        destruct (String.leb_total (key x) (key y)) as [H|H];
          [congruence | exact H].
Qed.

Lemma sort_by_key_sorted (l : list A) : StronglySorted le (sort_by_key key l).
Proof.
  induction l as [|x l IH]; simpl; [constructor|].
  now apply insert_by_key_sorted.
Qed.

Lemma insert_by_key_stable (k : string) (x : A) (l : list A) :
  filter (fun y => key y =? k) (insert_by_key key x l)
  = filter (fun y => key y =? k) (x :: l).
Proof.
  induction l as [|y r IH]; [easy|]. cbn [insert_by_key].
  destruct (String.leb (key x) (key y)) eqn:Hxy; [easy|].
  cbn [filter] in *. rewrite IH.
  destruct (String.eqb_spec (key x) k) as [Hx|Hx]; [|easy].
  destruct (String.eqb_spec (key y) k) as [Hy|Hy]; [|easy].
  rewrite Hx, Hy, leb_refl in Hxy. discriminate.
Qed.

Lemma sort_by_key_stable (k : string) (l : list A) :
  filter (fun y => key y =? k) (sort_by_key key l)
  = filter (fun y => key y =? k) l.
Proof.
  induction l as [|x l IH]; [easy|]. cbn [sort_by_key fold_right].
  rewrite insert_by_key_stable. cbn [filter].
  fold (sort_by_key key l). now rewrite IH.
Qed.
End SortFacts.

(** ** The catalog builder *)

Lemma add_service_app (services : list DockerService.t)
    (container : Container.t) :
  add_service services container
  = (services ++ (if emitted container then [service_of container] else []))%list.
Proof.
  unfold add_service, emitted, service_of.
  destruct (is_database_container _ _); cbn [negb andb].
  - now rewrite app_nil_r.
  - destruct (parse_ports (Container.Ports container));
      [now rewrite app_nil_r | reflexivity].
Qed.

Lemma flat_map_filter_map {A B : Type} (p : A -> bool) (f : A -> B)
    (l : list A) :
  flat_map (fun x => if p x then [f x] else []) l = map f (filter p l).
Proof.
  induction l as [|x l IH]; simpl; [easy|].
  destruct (p x); simpl; now rewrite IH.
Qed.

Lemma services_in_order (containers : list Container.t) :
  fold_left add_service containers []
  = map service_of (filter emitted containers).
Proof.
  rewrite (fold_left_ext_app add_service _ add_service_app).
  cbn [app]. apply flat_map_filter_map.
Qed.

Lemma catalog_sort (containers : list Container.t) :
  catalog containers
  = sort_by_key sort_key (map service_of (filter emitted containers)).
Proof. unfold catalog. now rewrite services_in_order. Qed.

Lemma process_containers_catalog (run : list string -> completed)
    (show_all : bool) (stdout : string) :
  run (docker_cmd show_all) = inr stdout ->
  process_containers run show_all
  = ([], inr (catalog (containers_of_stdout stdout))).
Proof.
  intros H. unfold process_containers, get_docker_containers.
  now rewrite H.
Qed.

Lemma emitted_iff (container : Container.t) :
  emitted container = true <->
  is_database_container (Container.Name container)
                        (Container.Image container) = false
  /\ parse_ports (Container.Ports container) <> [].
Proof.
  unfold emitted. rewrite andb_true_iff, negb_true_iff.
  destruct (parse_ports (Container.Ports container)); intuition congruence.
Qed.

(** C2. A container record has an entry in the catalog exactly when the
    classifier does not flag its name and image and its port string parses to
    one mapping at least; the catalog holds one entry for each such record
    and nothing else.  Of a Postgres record, a record without ports and a web
    application with one mapping, only the last has an entry, with one
    port. *)
Theorem catalog_emits :
  (forall containers : list Container.t,
      Permutation (catalog containers)
                  (map service_of (filter emitted containers))
      /\ (forall service,
             In service (catalog containers) <->
             exists container,
               In container containers
               /\ is_database_container (Container.Name container)
                                        (Container.Image container) = false
               /\ parse_ports (Container.Ports container) <> []
               /\ service = service_of container)
      /\ List.length (catalog containers)
         = List.length (filter emitted containers))
  /\ (let pg := Container.Build "pg" "postgres:15" "Up 2 hours"
                                "0.0.0.0:5432->5432/tcp" in
      let idle := Container.Build "cron" "busybox" "Up 2 hours" "" in
      let web := Container.Build "webapp" "myorg/webapp:latest" "Up 2 hours"
                                 "0.0.0.0:8080->80/tcp" in
      catalog [pg; idle; web]
      = [DockerService.Build "Webapp" "myorg/webapp:latest" "Up 2 hours"
                             [("8080", "80")] None "Other" ""]
      /\ map (fun s => List.length (DockerService.ports s))
             (catalog [pg; idle; web]) = [1%nat]
      /\ is_database_container "pg" "postgres:15" = true
      /\ parse_ports "" = []).
Proof.
  split; [|repeat split; reflexivity].
  intros containers.
  assert (Hperm : Permutation (catalog containers)
                              (map service_of (filter emitted containers))).
  { rewrite catalog_sort. apply sort_by_key_perm. }
  split; [exact Hperm|]. split.
  - intros service. split.
    + intros Hin. apply (Permutation_in _ Hperm) in Hin.
      apply in_map_iff in Hin as (c & <- & Hc).
      apply filter_In in Hc as [Hc He]. apply emitted_iff in He as [Hdb Hp].
      now exists c.
    + intros (c & Hc & Hdb & Hp & ->).
      apply (Permutation_in _ (Permutation_sym Hperm)).
      apply in_map, filter_In. split; [exact Hc|].
      now apply emitted_iff.
  - rewrite (Permutation_length Hperm). apply length_map.
Qed.

(** C6. The catalog is in ascending order of the case-folded display names,
    and entries whose names are equal up to case keep the order in which the
    lister gave their containers.  Entries named "Zeta", "alpha" and "Beta"
    come out as alpha, Beta, Zeta. *)
Theorem catalog_sorted_stable :
  (forall containers : list Container.t,
      StronglySorted name_le (catalog containers)
      /\ Permutation (catalog containers)
                     (map service_of (filter emitted containers))
      /\ forall k : string,
          with_key k (catalog containers)
          = with_key k (map service_of (filter emitted containers)))
  /\ (let entry := fun n p =>
                     DockerService.Build n "img" "Up" [(p, "80")] None "Other" ""
      in
      sort_by_key sort_key [entry "Zeta" "1"; entry "alpha" "2"; entry "Beta" "3"]
      = [entry "alpha" "2"; entry "Beta" "3"; entry "Zeta" "1"]
      /\ sort_by_key sort_key
           [entry "blog" "1"; entry "Alpha" "2"; entry "Blog" "3";
            entry "BLOG" "4"]
         = [entry "Alpha" "2"; entry "blog" "1"; entry "Blog" "3";
            entry "BLOG" "4"])
  /\ (let box := fun n p => Container.Build n "acme/tool" "Up"
                                            ("0.0.0.0:" ++ p ++ "->80/tcp") in
      map (fun s => (DockerService.name s, DockerService.ports s))
          (catalog [box "Zeta" "1"; box "alpha" "2"; box "Beta" "3";
                    box "ALPHA" "4"])
      = [("Alpha", [("2", "80")]); ("Alpha", [("4", "80")]);
         ("Beta", [("3", "80")]); ("Zeta", [("1", "80")])]).
Proof.
  split; [|split; [split|]; reflexivity].
  intros containers. rewrite catalog_sort. repeat split.
  - apply (sort_by_key_sorted sort_key).
  - apply sort_by_key_perm.
  - intros k. apply (sort_by_key_stable sort_key).
Qed.

(** ** Words *)

Lemma is_alnum_not_space (c : ascii) : is_alnum c = true -> is_space c = false.
Proof.
  intros H. destruct (is_space c) eqn:Hs; [|easy].
  destruct c as [[] [] [] [] [] [] [] []]; discriminate.
Qed.

Lemma split_ws_nil (s : string) :
  split_ws s = [] <-> all_chars is_space s = true.
Proof.
  induction s as [|c r IH]; [easy|]. cbn [split_ws all_chars].
  destruct (is_space c); cbn [andb]; [exact IH|].
  split; [|discriminate].
  destruct r as [|d r']; [discriminate|].
  destruct (is_space d); [discriminate|].
  destruct (split_ws (String d r')); discriminate.
Qed.

Lemma split_ws_words (s : string) : Forall (fun w => w <> "") (split_ws s).
Proof.
  induction s as [|c r IH]; [constructor|]. cbn [split_ws].
  destruct (is_space c); [exact IH|].
  destruct r as [|d r']; [now repeat constructor|].
  destruct (is_space d); [now constructor|].
  destruct (split_ws (String d r')) as [|w ws]; [now repeat constructor|].
  inversion IH; subst. now constructor.
Qed.

Lemma join_empty (sep : string) (l : list string) :
  Forall (fun w => w <> "") l -> join sep l = "" -> l = [].
Proof.
  intros Hl. destruct Hl as [|w ws Hw _]; [easy|].
  destruct w as [|c w]; [easy|].
  unfold join. now rewrite concat_cons_head.
Qed.

Lemma capitalize_nonempty (l : list string) :
  Forall (fun w => w <> "") l -> Forall (fun w => w <> "") (map capitalize l).
Proof.
  induction 1 as [|w ws Hne _ IH]; simpl; [constructor|].
  constructor; [now destruct w | exact IH].
Qed.

Lemma capitalize_words_empty (s : string) :
  capitalize_words s = "" <-> all_chars is_space s = true.
Proof.
  rewrite <- split_ws_nil. unfold capitalize_words. split.
  - intros H.
    pose proof (capitalize_nonempty _ (split_ws_words s)) as Hw.
    apply (join_empty _ _ Hw) in H. now destruct (split_ws s).
  - now intros ->.
Qed.

Lemma re_split_non_alnum_words (in_sep : bool) (s : string) :
  Forall (fun w => all_chars is_alnum w = true)
         (re_split_non_alnum_go in_sep s).
Proof.
  revert in_sep; induction s as [|c r IH]; intros in_sep;
    cbn [re_split_non_alnum_go].
  - now repeat constructor.
  - destruct (is_alnum c) eqn:Hc.
    + pose proof (IH false) as Hr.
      destruct (re_split_non_alnum_go false r) as [|w ws].
      * repeat constructor. simpl. now rewrite Hc.
      * inversion Hr; subst. constructor; [|easy].
        simpl. now rewrite Hc.
    + destruct in_sep; [apply IH|]. constructor; [easy | apply IH].
Qed.

Lemma unique_words_of_words (words : list string) :
  Forall (fun w => all_chars is_alnum w = true) words ->
  Forall (fun w => w <> "" /\ all_chars is_alnum w = true)
         (unique_words_of words).
Proof.
  unfold unique_words_of.
  assert (H : forall acc,
             Forall (fun w => w <> "" /\ all_chars is_alnum w = true) acc ->
             Forall (fun w => all_chars is_alnum w = true) words ->
             Forall (fun w => w <> "" /\ all_chars is_alnum w = true)
                    (fold_left add_unique words acc)).
  { induction words as [|w ws IH]; intros acc Hacc Hws; [exact Hacc|].
    inversion Hws; subst. cbn [fold_left]. apply IH; [|easy].
    unfold add_unique, truthy.
    destruct (String.eqb_spec w "") as [He|Hne]; cbn [negb andb]; [easy|].
    destruct (negb (mem (lower w) (map lower acc))); [|easy].
    apply Forall_app. split; [easy|]. now repeat constructor. }
  intros Hw. apply H; [constructor | exact Hw].
Qed.

Lemma join_unique_words_head (s : string) :
  match join " " (unique_words_of (re_split_non_alnum s)) with
  | "" => True
  | String c _ => is_alnum c = true
  end.
Proof.
  pose proof (unique_words_of_words _ (re_split_non_alnum_words false s))
    as Hw.
  unfold re_split_non_alnum.
  destruct (unique_words_of (re_split_non_alnum_go false s)) as [|w ws];
    [exact I|].
  inversion Hw as [|? ? [Hne Hal] _]; subst.
  destruct w as [|c w]; [easy|].
  unfold join. rewrite concat_cons_head.
  simpl in Hal. now apply andb_true_iff in Hal as [Hc _].
Qed.

(** The cleaned name is empty or starts with a letter or a digit. *)
Lemma cleaned_words_head (name : string) :
  match cleaned_words name with
  | "" => True
  | String c _ => is_alnum c = true
  end.
Proof. unfold cleaned_words. apply join_unique_words_head. Qed.

Lemma cleaned_words_not_blank (name : string) :
  cleaned_words name <> "" -> all_chars is_space (cleaned_words name) = false.
Proof.
  intros Hne. pose proof (cleaned_words_head name) as Hh.
  destruct (cleaned_words name) as [|c r]; [easy|].
  simpl. now rewrite (is_alnum_not_space c Hh).
Qed.

(** ** The base image name *)

Lemma split_char_head (d : ascii) (s : string) :
  nth 0 (split (String d "") s) "" = up_to (Ascii.eqb d) s.
Proof.
  unfold split; induction s as [|c r IH]; [easy|].
  cbn [split_go up_to]. rewrite prefix_char.
  destruct (Ascii.eqb d c); [easy|].
  pose proof (split_go_not_nil (String d "") r 0) as Hne.
  destruct (split_go (String d "") 0 r) as [|w ws]; [easy|].
  cbn in *. now rewrite IH.
Qed.

Lemma char_in_false (d : ascii) (s : string) :
  char_in d s = false ->
  all_chars (fun c => negb (Ascii.eqb d c)) s = true.
Proof.
  induction s as [|c r IH]; simpl; [easy|].
  intros H. apply orb_false_iff in H as [Hc Hr]. now rewrite Hc, IH.
Qed.

Lemma split_char_present (d : ascii) (s : string) :
  char_in d s = true ->
  exists w w' ws, split (String d "") s = w :: w' :: ws.
Proof.
  unfold split; induction s as [|c r IH]; simpl char_in; [discriminate|].
  intros H. cbn [split_go]. rewrite prefix_char.
  pose proof (split_go_not_nil (String d "") r 0) as Hne.
  destruct (Ascii.eqb d c) eqn:Hc.
  - cbn. destruct (split_go (String d "") 0 r) as [|w ws]; [easy|].
    now exists "", w, ws.
  - cbn in H. destruct (IH H) as (w & w' & ws & ->).
    now exists (String c w), w', ws.
Qed.

Lemma after_last_absent (d : ascii) (s : string) :
  char_in d s = false -> after_last d s = s.
Proof.
  destruct s as [|c r]; simpl; [easy|].
  intros H. apply orb_false_iff in H as [-> ->]. reflexivity.
Qed.

Lemma split_char_last (d : ascii) (s : string) :
  last (split (String d "") s) "" = after_last d s.
Proof.
  induction s as [|c r IH]; [easy|].
  unfold split in *. cbn [split_go after_last]. rewrite prefix_char.
  pose proof (split_go_not_nil (String d "") r 0) as Hne.
  destruct (Ascii.eqb d c) eqn:Hc.
  - cbn [length Nat.sub]. rewrite <- IH.
    destruct (split_go (String d "") 0 r); easy.
  - destruct (char_in d r) eqn:Hr.
    + destruct (split_char_present d r Hr) as (w & w' & ws & E).
      unfold split in E. rewrite E in *. exact IH.
    + pose proof (split_char_absent d r (char_in_false d r Hr)) as E.
      unfold split in E. now rewrite E.
Qed.

Lemma up_to_up_to (p q : ascii -> bool) (s : string) :
  up_to q (up_to p s) = up_to (fun c => p c || q c) s.
Proof.
  induction s as [|c r IH]; simpl; [easy|].
  destruct (p c); simpl; [easy|]. destruct (q c); [easy|]. now rewrite IH.
Qed.

Lemma image_parts_base_image (image : string) :
  image_parts image = base_image image.
Proof.
  unfold image_parts, base_image.
  rewrite (split_char_last "/"), (split_char_head ":"), (split_char_head "@").
  apply up_to_up_to.
Qed.

(** ** The normalizer *)

Lemma clean_container_name_cases (name image : string) :
  clean_container_name name image
  = capitalize_words
      (if (length (cleaned_words name) <? 3)%nat
       then base_image image else cleaned_words name).
Proof.
  unfold clean_container_name. rewrite image_parts_base_image.
  generalize (cleaned_words name) as cleaned. intros cleaned.
  destruct (length cleaned <? 3)%nat eqn:Hlen; [easy|].
  destruct cleaned as [|c r]; [discriminate|]. reflexivity.
Qed.

(** C7, the fallback as the code has it: when the cleaned name has fewer
    than 3 characters the display name is the base image name (what follows
    the last '/' of the image reference, up to a tag or a digest) with its
    words capitalised, and otherwise the cleaned name with its words
    capitalised.  The display name is empty exactly when the cleaned name
    has fewer than 3 characters and the base image name holds nothing but
    white space; for "server-1" with image "nginx:alpine" it is "Nginx". *)
Theorem clean_container_name_fallback :
  (forall name image : string,
      image_parts image = base_image image
      /\ clean_container_name name image
         = capitalize_words
             (if (length (cleaned_words name) <? 3)%nat
              then base_image image else cleaned_words name)
      /\ (clean_container_name name image = "" <->
          (length (cleaned_words name) < 3)%nat
          /\ all_chars is_space (base_image image) = true))
  /\ cleaned_words "server-1" = "1"
  /\ base_image "nginx:alpine" = "nginx"
  /\ clean_container_name "server-1" "nginx:alpine" = "Nginx"
  /\ clean_container_name "myapp-frontend-1" "myorg/myapp:1.0" = "Myapp"
  /\ clean_container_name "server-1" "ghcr.io/acme/nginx@sha256:0a1b"
     = "Nginx".
Proof.
  split; [|repeat split; reflexivity].
  intros name image. split; [apply image_parts_base_image|].
  split; [apply clean_container_name_cases|].
  rewrite clean_container_name_cases, capitalize_words_empty.
  destruct (Nat.ltb_spec (length (cleaned_words name)) 3) as [Hlt|Hge].
  - tauto.
  - split; [|lia]. intros H.
    rewrite cleaned_words_not_blank in H; [discriminate|].
    intros E. rewrite E in Hge. simpl in Hge. lia.
Qed.

(** C7 as the specification has it fails when the image reference has no
    base name: the display name is then empty. *)
Lemma clean_container_name_empty :
  clean_container_name "server-1" "" = ""
  /\ clean_container_name "server-1" "registry.local/" = ""
  /\ clean_container_name "" ":latest" = "".
Proof. repeat split; reflexivity. Qed.

(** ** Names made of a generic word and a digit *)

Lemma generic_terms_with_digit :
  forallb (fun term =>
    forallb (fun sep =>
      forallb (fun digit => falls_back (term ++ sep ++ digit)) single_digits)
            separators)
          generic_terms
  = true.
Proof. vm_compute. reflexivity. Qed.

Lemma mem_In (x : string) (l : list string) : mem x l = true -> In x l.
Proof.
  unfold mem. intros H. apply existsb_exists in H as (y & Hy & E).
  apply String.eqb_eq in E. now subst.
Qed.

Lemma falls_back_name (name image : string) :
  falls_back name = true ->
  clean_container_name name image = capitalize_words (base_image image).
Proof.
  unfold falls_back. intros H. rewrite clean_container_name_cases, H.
  reflexivity.
Qed.

Lemma falls_back_short (name : string) :
  falls_back name = true -> (length (cleaned_words name) < 3)%nat.
Proof. unfold falls_back. intros H. apply Nat.ltb_lt. exact H. Qed.




(** * Further properties of the pipeline *)

(** ** The lister: what the records hold *)

Lemma containers_of_stdout_lines (stdout : string) :
  containers_of_stdout stdout
  = flat_map first_four_fields (split LF (strip stdout)).
Proof.
  unfold containers_of_stdout.
  now rewrite (fold_left_ext_app add_line first_four_fields add_line_app).
Qed.

Lemma all_chars_split_go (p : ascii -> bool) (sep s : string) (k : nat) :
  all_chars p s = true ->
  Forall (fun w => all_chars p w = true) (split_go sep k s).
Proof.
  revert k; induction s as [|c r IH]; intros k; cbn [all_chars split_go].
  - intros _. now repeat constructor.
  - rewrite andb_true_iff. intros [Hc Hr]. destruct k as [|k]; [|now apply IH].
    destruct (prefix sep (String c r)).
    + constructor; [reflexivity | now apply IH].
    + pose proof (IH 0%nat Hr) as Hw.
      destruct (split_go sep 0 r) as [|w ws].
      * repeat constructor. cbn. now rewrite Hc.
      * inversion Hw; subst. constructor; [|assumption].
        cbn. now rewrite Hc.
Qed.

Lemma split_char_pieces (d : ascii) (s : string) :
  Forall (fun w => char_in d w = false) (split (String d "") s).
Proof.
  unfold split; induction s as [|c r IH]; [now repeat constructor|].
  cbn [split_go]. rewrite prefix_char.
  destruct (Ascii.eqb d c) eqn:Hc.
  - constructor; [reflexivity | exact IH].
  - destruct (split_go (String d "") 0 r) as [|w ws].
    + repeat constructor. cbn. now rewrite Hc.
    + inversion IH; subst. constructor; [|assumption].
      cbn. now rewrite Hc.
Qed.

Lemma char_in_all_chars (d : ascii) (s : string) :
  char_in d s = false <-> all_chars (fun c => negb (Ascii.eqb d c)) s = true.
Proof.
  induction s as [|c r IH]; cbn [char_in all_chars]; [easy|].
  rewrite orb_false_iff, andb_true_iff, negb_true_iff, IH. reflexivity.
Qed.

Lemma first_four_fields_clean (line : string) :
  char_in LF_char line = false ->
  forallb clean_fields (first_four_fields line) = true.
Proof.
  intros Hlf. unfold first_four_fields.
  pose proof (split_char_pieces "|" line) as Hp.
  apply char_in_all_chars in Hlf.
  pose proof (all_chars_split_go _ "|" line 0 Hlf) as Hl.
  fold (split "|" line) in Hl.
  destruct (split "|" line) as [|a [|b [|c [|d rest]]]]; try reflexivity.
  repeat match goal with
         | H : Forall _ (_ :: _) |- _ => inversion H; clear H; subst
         end.
  repeat match goal with
         | H : all_chars _ _ = true |- _ => apply char_in_all_chars in H
         end.
  unfold clean_fields.
  cbn [forallb Container.Name Container.Image Container.Status
       Container.Ports].
  repeat match goal with
         | H : char_in _ _ = false |- _ => rewrite H; clear H
         end.
  reflexivity.
Qed.

Lemma forallb_flat_map {A B : Type} (p : B -> bool) (f : A -> list B)
    (l : list A) :
  Forall (fun x => forallb p (f x) = true) l ->
  forallb p (flat_map f l) = true.
Proof.
  induction 1 as [|x l Hx _ IH]; [reflexivity|].
  cbn [flat_map]. now rewrite forallb_app, Hx, IH.
Qed.

Lemma length_flat_map_le {A B : Type} (f : A -> list B) (l : list A) :
  (forall x, List.length (f x) <= 1)%nat ->
  (List.length (flat_map f l) <= List.length l)%nat.
Proof.
  intros Hf; induction l as [|x l IH]; [easy|].
  cbn [flat_map]. rewrite length_app. cbn [List.length].
  specialize (Hf x). lia.
Qed.

Lemma first_four_fields_length (line : string) :
  (List.length (first_four_fields line) <= 1)%nat.
Proof.
  unfold first_four_fields.
  destruct (split "|" line) as [|a [|b [|c [|d rest]]]]; cbn; lia.
Qed.

(** X1. No field of a record of the lister holds a '|' or a line feed, and
    the lister gives at most one record for each line of the output. *)
Theorem containers_of_stdout_clean (stdout : string) :
  forallb clean_fields (containers_of_stdout stdout) = true
  /\ (List.length (containers_of_stdout stdout)
      <= List.length (split LF (strip stdout)))%nat.
Proof.
  rewrite containers_of_stdout_lines. split.
  - apply forallb_flat_map.
    pose proof (split_char_pieces LF_char (strip stdout)) as Hp.
    apply Forall_impl with (2 := Hp). intros line Hline.
    now apply first_four_fields_clean.
  - apply length_flat_map_le, first_four_fields_length.
Qed.

(** ** The lister: reading back what the runtime prints *)

Lemma lstrip_by_head_out (p : ascii -> bool) (s : string) :
  head_in p s = false -> lstrip_by p s = s.
Proof. destruct s as [|c r]; cbn; [easy|]. now intros ->. Qed.

Lemma rstrip_by_last_out (p : ascii -> bool) (s : string) :
  last_in p s = false -> rstrip_by p s = s.
Proof.
  induction s as [|c r IH]; [easy|]. cbn [last_in rstrip_by].
  destruct r as [|d r]; [now intros -> |].
  intros H. rewrite (IH H). reflexivity.
Qed.

Lemma rstrip_by_blank (p : ascii -> bool) (s : string) :
  all_chars p s = true -> rstrip_by p s = "".
Proof.
  induction s as [|c r IH]; [easy|]. cbn [all_chars rstrip_by].
  rewrite andb_true_iff. intros [Hc Hr]. now rewrite (IH Hr), Hc.
Qed.

Lemma rstrip_by_app_blank (p : ascii -> bool) (a b : string) :
  all_chars p b = true -> rstrip_by p (a ++ b) = rstrip_by p a.
Proof.
  intros Hb; induction a as [|c a IH]; cbn [append rstrip_by].
  - now apply rstrip_by_blank.
  - now rewrite IH.
Qed.

Lemma rstrip_by_app_kept (p : ascii -> bool) (a b : string) :
  rstrip_by p b <> "" -> rstrip_by p (a ++ b) = a ++ rstrip_by p b.
Proof.
  intros Hb; induction a as [|c a IH]; cbn [append rstrip_by]; [easy|].
  rewrite IH. destruct (a ++ rstrip_by p b) eqn:E; [|reflexivity].
  destruct a; cbn in E; [contradiction | discriminate].
Qed.

Lemma last_in_app (p : ascii -> bool) (a : string) (d : ascii) (b : string) :
  last_in p (a ++ String d b) = last_in p (String d b).
Proof.
  induction a as [|c a IH]; [reflexivity|].
  cbn [append]. change (last_in p (String c (a ++ String d b)))
    with (match a ++ String d b with
          | "" => p c
          | String _ _ => last_in p (a ++ String d b)
          end).
  rewrite IH. destruct a; reflexivity.
Qed.

Lemma join_cons2 (sep l l' : string) (ls : list string) :
  join sep (l :: l' :: ls) = l ++ sep ++ join sep (l' :: ls).
Proof. reflexivity. Qed.

Lemma rstrip_lines_text (l : string) (ls : list string) :
  Forall (fun l => l <> "" /\ last_in is_space l = false) (l :: ls) ->
  rstrip_by is_space (lines_text (l :: ls)) = join LF (l :: ls).
Proof.
  revert l; induction ls as [|l' ls IH]; intros l Hls;
    inversion Hls as [|? ? [Hne Hlast] Hrest]; subst.
  - cbn [lines_text join concat]. rewrite <- append_assoc, append_nil_r.
    rewrite rstrip_by_app_blank by reflexivity.
    now apply rstrip_by_last_out.
  - rewrite join_cons2.
    change (lines_text (l :: l' :: ls)) with (l ++ LF ++ lines_text (l' :: ls)).
    specialize (IH l' Hrest).
    assert (Hkept : rstrip_by is_space (lines_text (l' :: ls)) <> "").
    { rewrite IH. inversion Hrest as [|? ? [Hne' _] _]; subst.
      destruct l' as [|c l']; [easy|].
      unfold join. rewrite concat_cons_head. discriminate. }
    rewrite rstrip_by_app_kept.
    + rewrite rstrip_by_app_kept by exact Hkept. now rewrite IH.
    + rewrite rstrip_by_app_kept by exact Hkept. discriminate.
Qed.

Lemma strip_lines_text (l : string) (ls : list string) :
  head_in is_space l = false ->
  Forall (fun l => l <> "" /\ last_in is_space l = false) (l :: ls) ->
  strip (lines_text (l :: ls)) = join LF (l :: ls).
Proof.
  intros Hhead Hls. unfold strip, strip_by.
  rewrite lstrip_by_head_out; [now apply rstrip_lines_text|].
  inversion Hls as [|? ? [Hne _] _]; subst.
  destruct l as [|c l]; [easy | exact Hhead].
Qed.

Lemma split_char_join (d : ascii) (l : string) (ls : list string) :
  Forall (fun l => char_in d l = false) (l :: ls) ->
  split (String d "") (join (String d "") (l :: ls)) = l :: ls.
Proof.
  revert l; induction ls as [|l' ls IH]; intros l Hls;
    inversion Hls as [|? ? Hl Hrest]; subst.
  - apply split_char_absent. now apply char_in_all_chars.
  - rewrite join_cons2. cbn [append].
    rewrite split_char_app by now apply char_in_all_chars.
    now rewrite IH.
Qed.

Section FormatLine.
Variable c : Container.t.
Hypothesis Htidy : tidy c = true.

Lemma tidy_fields :
  (char_in "|" (Container.Name c) = false
   /\ char_in "|" (Container.Image c) = false
   /\ char_in "|" (Container.Status c) = false
   /\ char_in "|" (Container.Ports c) = false)
  /\ (char_in LF_char (Container.Name c) = false
      /\ char_in LF_char (Container.Image c) = false
      /\ char_in LF_char (Container.Status c) = false
      /\ char_in LF_char (Container.Ports c) = false)
  /\ head_in is_space (Container.Name c) = false
  /\ last_in is_space (Container.Ports c) = false.
Proof.
  unfold tidy, clean_fields in Htidy. cbn [forallb] in Htidy.
  rewrite !andb_true_iff, !negb_true_iff in Htidy. tauto.
Qed.

Lemma format_line_fields : first_four_fields (format_line c) = [c].
Proof.
  destruct tidy_fields as ((Hn & Hi & Hs & Hp) & _).
  unfold first_four_fields, format_line. cbn [append].
  rewrite !split_char_app by now apply char_in_all_chars.
  rewrite split_char_absent by now apply char_in_all_chars.
  now destruct c.
Qed.

Lemma format_line_no_lf : char_in LF_char (format_line c) = false.
Proof.
  destruct tidy_fields as (_ & (Hn & Hi & Hs & Hp) & _).
  apply char_in_all_chars. unfold format_line.
  apply char_in_all_chars in Hn, Hi, Hs, Hp.
  rewrite !all_chars_app, Hn, Hi, Hs, Hp. reflexivity.
Qed.

Lemma format_line_ends :
  format_line c <> ""
  /\ head_in is_space (format_line c) = false
  /\ last_in is_space (format_line c) = false.
Proof.
  destruct tidy_fields as (_ & _ & Hhead & Hlast).
  unfold format_line. repeat split.
  - destruct (Container.Name c); discriminate.
  - destruct (Container.Name c); [reflexivity | exact Hhead].
  - assert (E : Container.Name c ++ "|" ++ Container.Image c ++ "|"
                  ++ Container.Status c ++ "|" ++ Container.Ports c
                = (Container.Name c ++ "|" ++ Container.Image c ++ "|"
                     ++ Container.Status c) ++ String "|" (Container.Ports c)).
    { now rewrite !append_assoc. }
    rewrite E, last_in_app.
    destruct (Container.Ports c); [reflexivity | exact Hlast].
Qed.
End FormatLine.

Lemma containers_of_docker_output (containers : list Container.t) :
  forallb tidy containers = true ->
  containers_of_stdout (docker_output containers) = containers.
Proof.
  intros Htidy. rewrite containers_of_stdout_lines.
  destruct containers as [|c cs]; [reflexivity|].
  rewrite forallb_forall in Htidy.
  unfold docker_output. cbn [map].
  rewrite strip_lines_text.
  - change LF with (String LF_char "").
    rewrite split_char_join.
    + change (format_line c :: map format_line cs)
        with (map format_line (c :: cs)).
      induction (c :: cs) as [|x xs IH]; [reflexivity|].
      cbn [map flat_map]. rewrite format_line_fields.
      * cbn [app]. f_equal. apply IH. intros y Hy. apply Htidy. now right.
      * apply Htidy. now left.
    + change (format_line c :: map format_line cs)
        with (map format_line (c :: cs)).
      apply Forall_map, Forall_forall. intros x Hx.
      apply format_line_no_lf. now apply Htidy.
  - apply format_line_ends, Htidy. now left.
  - change (format_line c :: map format_line cs)
      with (map format_line (c :: cs)).
    apply Forall_map, Forall_forall.
    intros x Hx. pose proof (format_line_ends x (Htidy x Hx)). tauto.
Qed.



(** ** The port parser: clauses *)

Lemma split_char_app_all (d : ascii) (a b : string) :
  split (String d "") (a ++ String d b)
  = (split (String d "") a ++ split (String d "") b)%list.
Proof.
  unfold split; induction a as [|c a IH]; cbn [append].
  - cbn [split_go]. now rewrite prefix_char, Ascii.eqb_refl.
  - cbn [split_go]. rewrite !prefix_char.
    destruct (Ascii.eqb d c).
    + cbn [String.length Nat.sub]. now rewrite IH.
    + rewrite IH. pose proof (split_go_not_nil (String d "") a 0) as Hne.
      destruct (split_go (String d "") 0 a); [contradiction | reflexivity].
Qed.

Lemma parse_mapping_length (mapping : string) :
  (List.length (parse_mapping mapping) <= 1)%nat.
Proof.
  unfold parse_mapping.
  destruct (contains "->" (strip mapping)).
  - destruct (split "->" (strip mapping)) as [|p0 [|p1 [|]]]; cbn; try lia.
    destruct (search_colon_digits (strip p0)); cbn; try lia.
    destruct (search_digits (strip p1)); cbn; lia.
  - destruct (contains ":" (strip mapping)
              && negb (startswith "::" (strip mapping))); cbn; [|lia].
    destruct (List.length (split ":" (strip mapping))) as [|[|n]]; cbn; lia.
Qed.

(** X3. A port string is parsed clause by clause: the mappings of two
    strings joined by a ',' are those of the first followed by those of the
    second, nothing is merged or dropped as a duplicate; a clause gives one
    mapping at most, so a string never gives more mappings than it has
    clauses. *)
Theorem parse_ports_clause_by_clause :
  (forall a b : string,
      parse_ports (a ++ "," ++ b) = (parse_ports a ++ parse_ports b)%list)
  /\ (forall mapping : string, (List.length (parse_mapping mapping) <= 1)%nat)
  /\ (forall ports_str : string,
         (List.length (parse_ports ports_str)
          <= List.length (split "," ports_str))%nat).
Proof.
  split; [|split].
  - intros a b. rewrite !parse_ports_flat. cbn [append].
    now rewrite split_char_app_all, flat_map_app.
  - exact parse_mapping_length.
  - intros ports_str. rewrite parse_ports_flat.
    apply length_flat_map_le, parse_mapping_length.
Qed.

Lemma contains_char (d : ascii) (s : string) :
  contains (String d "") s = char_in d s.
Proof.
  induction s as [|c r IH]; [reflexivity|].
  cbn [contains char_in]. now rewrite prefix_char, IH.
Qed.

Lemma all_chars_strip_by (p q : ascii -> bool) (s : string) :
  all_chars p s = true -> all_chars p (strip_by q s) = true.
Proof.
  destruct (strip_by_app q s) as (t1 & t2 & E & _ & _).
  intros H. rewrite E, !all_chars_app, !andb_true_iff in H. tauto.
Qed.

Lemma search_colon_digits_no_colon (s : string) :
  char_in ":" s = false -> search_colon_digits s = None.
Proof.
  induction s as [|c r IH]; [reflexivity|].
  cbn [char_in search_colon_digits]. rewrite orb_false_iff.
  intros [Hc Hr]. rewrite Ascii.eqb_sym in Hc. now rewrite Hc, IH.
Qed.

Lemma parse_mapping_no_colon (mapping : string) :
  char_in ":" mapping = false -> parse_mapping mapping = [].
Proof.
  intros H. apply char_in_all_chars in H.
  pose proof (all_chars_strip_by _ is_space mapping H) as Hs.
  fold (strip mapping) in Hs. unfold parse_mapping.
  destruct (contains "->" (strip mapping)).
  - pose proof (all_chars_split_go _ "->" _ 0 Hs) as Hp.
    fold (split "->" (strip mapping)) in Hp.
    destruct (split "->" (strip mapping)) as [|p0 [|p1 [|]]];
      try reflexivity.
    inversion Hp as [|? ? H0 _]; subst.
    apply (all_chars_strip_by _ is_space) in H0. fold (strip p0) in H0.
    apply char_in_all_chars in H0.
    now rewrite (search_colon_digits_no_colon _ H0).
  - apply char_in_all_chars in Hs. now rewrite contains_char, Hs.
Qed.

Lemma parse_ports_no_colon (ports_str : string) :
  char_in ":" ports_str = false -> parse_ports ports_str = [].
Proof.
  intros H. rewrite parse_ports_flat. apply char_in_all_chars in H.
  pose proof (all_chars_split_go _ "," _ 0 H) as Hp.
  fold (split "," ports_str) in Hp.
  induction Hp as [|m ms Hm _ IH]; [reflexivity|].
  cbn [flat_map]. rewrite IH, parse_mapping_no_colon; [reflexivity|].
  now apply char_in_all_chars.
Qed.

(** X4. A port string without ':' (ports that are exposed but not published,
    such as "80/tcp") gives no mapping, and a container with such a port
    string has no entry in the catalog. *)
Theorem unpublished_ports_excluded
    (container : Container.t)
    (Hports : char_in ":" (Container.Ports container) = false) :
  parse_ports (Container.Ports container) = []
  /\ emitted container = false
  /\ forall before after : list Container.t,
       catalog (before ++ container :: after) = catalog (before ++ after).
Proof.
  pose proof (parse_ports_no_colon _ Hports) as Hnone.
  assert (Hemit : emitted container = false).
  { unfold emitted. rewrite Hnone. apply andb_false_r. }
  split; [exact Hnone|]. split; [exact Hemit|].
  intros before after. rewrite !catalog_sort, !filter_app.
  cbn [filter]. now rewrite Hemit.
Qed.

Lemma unpublished_ports_excluded_witness :
  let container := Container.Build "worker" "acme/worker:2" "Up 3 hours"
                                   "80/tcp, 443/tcp" in
  parse_ports (Container.Ports container) = []
  /\ emitted container = false
  /\ forall before after : list Container.t,
       catalog (before ++ container :: after) = catalog (before ++ after).
Proof.
  intros container.
  apply (unpublished_ports_excluded container). reflexivity.
Defined.

Lemma split_char_unfold (d : ascii) (s : string) :
  split (String d "") s
  = up_to (Ascii.eqb d) s
    :: (if char_in d s then split (String d "") (after_first d s) else []).
Proof.
  unfold split; induction s as [|c r IH]; [reflexivity|].
  cbn [split_go up_to char_in after_first]. rewrite prefix_char.
  destruct (Ascii.eqb d c); [reflexivity|].
  rewrite IH. reflexivity.
Qed.

(** X5. A clause without "->" gives a mapping exactly when it holds a ':'
    and does not start with "::"; the mapping is then made of the text
    before the first ':', stripped, and of the text after it up to the next
    ':', stripped and cut at its first '/': the test on the number of parts
    never fails. *)
Theorem parse_mapping_shorthand
    (mapping : string)
    (Hplain : contains "->" (strip mapping) = false) :
  parse_mapping mapping
  = if char_in ":" (strip mapping) && negb (startswith "::" (strip mapping))
    then [(strip (up_to (Ascii.eqb ":") (strip mapping)),
           up_to (Ascii.eqb "/")
                 (strip (up_to (Ascii.eqb ":")
                               (after_first ":" (strip mapping)))))]
    else [].
Proof.
  unfold parse_mapping. rewrite Hplain, contains_char.
  destruct (char_in ":" (strip mapping)) eqn:Hc; [|reflexivity].
  destruct (negb (startswith "::" (strip mapping))); [|reflexivity].
  cbn [andb]. rewrite (split_char_unfold ":" (strip mapping)), Hc.
  rewrite (split_char_unfold ":" (after_first ":" (strip mapping))).
  cbn [List.length Nat.leb nth].
  now rewrite (split_char_head "/").
Qed.

Lemma parse_mapping_shorthand_witness :
  parse_mapping " 127.0.0.1:5432:5432/tcp"
  = [("127.0.0.1", "5432")].
Proof.
  exact (parse_mapping_shorthand " 127.0.0.1:5432:5432/tcp" eq_refl).
Defined.

(** ** The classifier: the keywords that matter *)

Lemma contains_occurs (sub s : string) :
  contains sub s = true <-> exists pre post, s = pre ++ sub ++ post.
Proof.
  split.
  - induction s as [|c r IH]; cbn [contains].
    + rewrite orb_false_r. intros H. apply prefix_drop in H.
      now exists "", (drop (String.length sub) "").
    + rewrite orb_true_iff. intros [H|H].
      * apply prefix_drop in H. now exists "", (drop (String.length sub) (String c r)).
      * destruct (IH H) as (pre & post & ->). now exists (String c pre), post.
  - intros (pre & post & ->). apply contains_app.
Qed.

Lemma contains_trans (a b s : string) :
  contains a b = true -> contains b s = true -> contains a s = true.
Proof.
  rewrite !contains_occurs.
  intros (p1 & q1 & ->) (p2 & q2 & ->).
  exists (p2 ++ p1), (q1 ++ q2). now rewrite !append_assoc.
Qed.

Lemma any_keyword_covered (keywords keywords' : list string) (a b : string) :
  forallb (fun k => existsb (fun k' => contains k' k) keywords') keywords
  = true ->
  any_keyword keywords a b = true -> any_keyword keywords' a b = true.
Proof.
  rewrite forallb_forall, !any_keyword_spec.
  intros Hcov (k & Hk & Hc).
  apply Hcov, existsb_exists in Hk as (k' & Hk' & Hsub).
  exists k'. split; [exact Hk'|].
  destruct Hc as [Hc|Hc]; [left | right]; exact (contains_trans _ _ _ Hsub Hc).
Qed.

(** X6. The classifier gives the same answer as the test on 18 of its 40
    keywords: each of the others (the engine names that end in "db" or hold
    "sql", the affixes "db-", "-db", "_db", "db_" and those of "database",
    the second "supabase") holds one of the 18.  So every name or image
    that holds "db" or "sql", in any case, is classified as a database,
    "feedback-api" among them. *)
Theorem is_database_container_minimal :
  (forall name image : string,
      is_database_container name image
      = any_keyword minimal_keywords (lower name) (lower image))
  /\ (forall name image : string,
         contains "db" (lower name) = true
         \/ contains "sql" (lower name) = true
         \/ contains "db" (lower image) = true
         \/ contains "sql" (lower image) = true ->
         is_database_container name image = true)
  /\ is_database_container "feedback-api" "acme/feedback:1.2" = true.
Proof.
  assert (Hmin : forall name image : string,
             is_database_container name image
             = any_keyword minimal_keywords (lower name) (lower image)).
  { intros name image. unfold is_database_container.
    destruct (any_keyword minimal_keywords (lower name) (lower image)) eqn:Hm.
    - apply (any_keyword_covered minimal_keywords database_keywords);
        [reflexivity | exact Hm].
    - destruct (any_keyword database_keywords (lower name) (lower image))
        eqn:Hd; [|reflexivity].
      apply (any_keyword_covered database_keywords minimal_keywords) in Hd;
        [congruence | reflexivity]. }
  split; [exact Hmin|]. split; [|reflexivity].
  intros name image H. rewrite Hmin. apply any_keyword_spec.
  destruct H as [H|[H|[H|H]]].
  - exists "db". split; [cbn; tauto | now left].
  - exists "sql". split; [cbn; tauto | now left].
  - exists "db". split; [cbn; tauto | now right].
  - exists "sql". split; [cbn; tauto | now right].
Qed.

(** ** The normalizer: the words of the cleaned name *)

Lemma mem_true_In (x : string) (l : list string) : In x l -> mem x l = true.
Proof.
  intros H. unfold mem. apply existsb_exists. exists x.
  split; [exact H | apply String.eqb_refl].
Qed.

Lemma NoDup_snoc {A : Type} (l : list A) (x : A) :
  NoDup l -> ~ In x l -> NoDup (l ++ [x]).
Proof.
  induction 1 as [|y l Hy Hl IH]; intros Hx; cbn.
  - repeat constructor. easy.
  - constructor.
    + rewrite in_app_iff. intros [H|[H|[]]]; [easy|].
      subst. apply Hx. now left.
    + apply IH. intros H. apply Hx. now right.
Qed.

Section UniqueWords.

Lemma fold_add_unique_nodup (ws acc : list string) :
  NoDup (map lower acc) -> NoDup (map lower (fold_left add_unique ws acc)).
Proof.
  revert acc; induction ws as [|w ws IH]; intros acc Hacc; [exact Hacc|].
  cbn [fold_left]. apply IH. unfold add_unique.
  destruct (truthy w); cbn [andb]; [|exact Hacc].
  destruct (mem (lower w) (map lower acc)) eqn:Hm; cbn [negb]; [exact Hacc|].
  rewrite map_app. apply NoDup_snoc; [exact Hacc|].
  intros Hin. apply mem_true_In in Hin. congruence.
Qed.

Lemma fold_add_unique_subset (ws acc : list string) (w : string) :
  In w (fold_left add_unique ws acc) -> In w acc \/ In w ws.
Proof.
  revert acc; induction ws as [|x ws IH]; intros acc; cbn [fold_left].
  - now left.
  - intros H. apply IH in H as [H|H]; [|right; now right].
    unfold add_unique in H.
    destruct (truthy x && negb (mem (lower x) (map lower acc)));
      [|now left].
    apply in_app_iff in H as [H|[H|[]]]; [now left|].
    right. now left.
Qed.

Lemma fold_add_unique_keeps (ws acc : list string) (x : string) :
  In x (map lower acc) -> In x (map lower (fold_left add_unique ws acc)).
Proof.
  revert acc; induction ws as [|w ws IH]; intros acc H; [exact H|].
  cbn [fold_left]. apply IH. unfold add_unique.
  destruct (truthy w && negb (mem (lower w) (map lower acc))); [|exact H].
  rewrite map_app, in_app_iff. now left.
Qed.

Lemma fold_add_unique_covers (ws acc : list string) (w : string) :
  In w ws -> w <> "" ->
  In (lower w) (map lower (fold_left add_unique ws acc)).
Proof.
  revert acc; induction ws as [|x ws IH]; intros acc Hin Hne; [easy|].
  cbn [fold_left]. destruct Hin as [->|Hin]; [|now apply IH].
  apply fold_add_unique_keeps. unfold add_unique, truthy.
  destruct (String.eqb_spec w "") as [E|_]; [contradiction|]. cbn [negb andb].
  destruct (mem (lower w) (map lower acc)) eqn:Hm; cbn [negb].
  - now apply mem_In.
  - rewrite map_app, in_app_iff. right. now left.
Qed.
End UniqueWords.

(** X7. The cleaned name is made of words of letters and digits, none
    empty, joined by single spaces, and no two of its words are equal up to
    case; the loop that builds them keeps words of its input only, and the
    first of each up to case. *)
Theorem cleaned_words_distinct :
  (forall name : string,
      cleaned_words name = join " " (kept_words name)
      /\ NoDup (map lower (kept_words name))
      /\ Forall (fun w => w <> "" /\ all_chars is_alnum w = true)
                (kept_words name))
  /\ (forall words : list string,
         NoDup (map lower (unique_words_of words))
         /\ (forall w, In w (unique_words_of words) -> In w words)
         /\ (forall w, In w words -> w <> "" ->
                       In (lower w) (map lower (unique_words_of words)))).
Proof.
  split.
  - intros name. split; [unfold cleaned_words, kept_words; reflexivity|].
    unfold kept_words. split.
    + apply fold_add_unique_nodup. constructor.
    + apply unique_words_of_words, re_split_non_alnum_words.
  - intros words. unfold unique_words_of. split; [|split].
    + apply fold_add_unique_nodup. constructor.
    + intros w H. apply fold_add_unique_subset in H as [[]|H]. exact H.
    + intros w. apply fold_add_unique_covers.
Qed.

(** ** The normalizer: the shape of the display name *)

Lemma lower_char_space (c : ascii) : is_space (lower_char c) = is_space c.
Proof. destruct c as [[] [] [] [] [] [] [] []]; reflexivity. Qed.

Lemma upper_char_space (c : ascii) : is_space (upper_char c) = is_space c.
Proof. destruct c as [[] [] [] [] [] [] [] []]; reflexivity. Qed.

Lemma lower_char_idem (c : ascii) : lower_char (lower_char c) = lower_char c.
Proof. destruct c as [[] [] [] [] [] [] [] []]; reflexivity. Qed.

Lemma upper_char_idem (c : ascii) : upper_char (upper_char c) = upper_char c.
Proof. destruct c as [[] [] [] [] [] [] [] []]; reflexivity. Qed.

Lemma lower_idem (s : string) : lower (lower s) = lower s.
Proof.
  induction s as [|c r IH]; [reflexivity|].
  cbn [lower]. now rewrite lower_char_idem, IH.
Qed.

Lemma lower_not_space (s : string) :
  all_chars not_space (lower s) = all_chars not_space s.
Proof.
  induction s as [|c r IH]; [reflexivity|].
  cbn [lower all_chars]. unfold not_space at 1 3.
  now rewrite lower_char_space, IH.
Qed.

Lemma capitalize_idem (w : string) : capitalize (capitalize w) = capitalize w.
Proof.
  destruct w as [|c r]; [reflexivity|].
  cbn [capitalize]. now rewrite upper_char_idem, lower_idem.
Qed.

Lemma capitalize_word (w : string) : word w -> word (capitalize w).
Proof.
  intros [Hne Hw]. destruct w as [|c r]; [easy|]. split; [easy|].
  cbn [capitalize all_chars] in *. unfold not_space at 1.
  rewrite upper_char_space, lower_not_space. exact Hw.
Qed.

Lemma split_ws_are_words (s : string) : Forall word (split_ws s).
Proof.
  induction s as [|c r IH]; [constructor|]. cbn [split_ws].
  destruct (is_space c) eqn:Hc; [exact IH|].
  assert (Hone : word (String c "")).
  { split; [easy|]. cbn. unfold not_space. now rewrite Hc. }
  destruct r as [|d r']; [constructor; [exact Hone | constructor]|].
  destruct (is_space d); [now constructor|].
  destruct (split_ws (String d r')) as [|w ws];
    [constructor; [exact Hone | constructor]|].
  inversion IH as [|? ? [Hne Hw] Hws]; subst. constructor; [|exact Hws].
  split; [easy|]. cbn [all_chars]. unfold not_space at 1.
  now rewrite Hc, Hw.
Qed.

Lemma split_ws_word_then_space (w rest : string) :
  word w -> split_ws (w ++ String " " rest) = w :: split_ws rest.
Proof.
  intros [Hne Hw]. induction w as [|c w IH]; [easy|].
  cbn [all_chars] in Hw. apply andb_true_iff in Hw as [Hc Hw].
  unfold not_space in Hc. apply negb_true_iff in Hc.
  cbn [append]. destruct w as [|d w].
  - cbn [append split_ws]. rewrite Hc. reflexivity.
  - assert (Hd : is_space d = false).
    { cbn [all_chars] in Hw. apply andb_true_iff in Hw as [Hd _].
      unfold not_space in Hd. now apply negb_true_iff in Hd. }
    specialize (IH ltac:(easy) Hw).
    cbn [append] in IH |- *.
    change (split_ws (String c (String d (w ++ String " " rest))))
      with (if is_space c then split_ws (String d (w ++ String " " rest))
            else if is_space d
                 then String c "" :: split_ws (String d (w ++ String " " rest))
                 else match split_ws (String d (w ++ String " " rest)) with
                      | x :: xs => String c x :: xs
                      | [] => [String c ""]
                      end).
    now rewrite Hc, Hd, IH.
Qed.

Lemma split_ws_one_word (w : string) : word w -> split_ws w = [w].
Proof.
  intros [Hne Hw]. induction w as [|c w IH]; [easy|].
  cbn [all_chars] in Hw. apply andb_true_iff in Hw as [Hc Hw].
  unfold not_space in Hc. apply negb_true_iff in Hc.
  destruct w as [|d w].
  - cbn [split_ws]. now rewrite Hc.
  - assert (Hd : is_space d = false).
    { cbn [all_chars] in Hw. apply andb_true_iff in Hw as [Hd _].
      unfold not_space in Hd. now apply negb_true_iff in Hd. }
    specialize (IH ltac:(easy) Hw).
    change (split_ws (String c (String d w)))
      with (if is_space c then split_ws (String d w)
            else if is_space d then String c "" :: split_ws (String d w)
                 else match split_ws (String d w) with
                      | x :: xs => String c x :: xs
                      | [] => [String c ""]
                      end).
    now rewrite Hc, Hd, IH.
Qed.

Lemma split_ws_join (ws : list string) :
  Forall word ws -> split_ws (join " " ws) = ws.
Proof.
  induction 1 as [|w ws Hw Hws IH]; [reflexivity|].
  destruct ws as [|w' ws].
  - now apply split_ws_one_word.
  - rewrite join_cons2. cbn [append].
    now rewrite split_ws_word_then_space, IH.
Qed.

Lemma capitalize_words_split (s : string) :
  split_ws (capitalize_words s) = map capitalize (split_ws s).
Proof.
  unfold capitalize_words. apply split_ws_join.
  pose proof (split_ws_are_words s) as Hs.
  induction Hs as [|w ws Hw _ IH]; cbn [map]; constructor;
    [now apply capitalize_word | exact IH].
Qed.

Lemma capitalize_words_idem (s : string) :
  capitalize_words (capitalize_words s) = capitalize_words s.
Proof.
  unfold capitalize_words at 1. rewrite capitalize_words_split, map_map.
  unfold capitalize_words. f_equal. apply map_ext. exact capitalize_idem.
Qed.

Lemma capitalize_words_shape (x : string) :
  capitalize_words (capitalize_words x) = capitalize_words x
  /\ join " " (split_ws (capitalize_words x)) = capitalize_words x
  /\ Forall (fun w => capitalize w = w /\ word w)
            (split_ws (capitalize_words x)).
Proof.
  split; [apply capitalize_words_idem|].
  rewrite capitalize_words_split. split; [reflexivity|].
  pose proof (split_ws_are_words x) as Hx.
  induction Hx as [|w ws Hw _ IH]; cbn [map]; constructor; [|exact IH].
  split; [apply capitalize_idem | now apply capitalize_word].
Qed.

(** X8. The display name is in its final shape: its words are joined by
    single spaces with no white space before or after them, each word is
    written with a capital first letter and the rest in lower case, and
    capitalising the words again changes nothing. *)
Theorem clean_container_name_shape (name image : string) :
  capitalize_words (clean_container_name name image)
  = clean_container_name name image
  /\ join " " (split_ws (clean_container_name name image))
     = clean_container_name name image
  /\ Forall (fun w => capitalize w = w /\ word w)
            (split_ws (clean_container_name name image)).
Proof.
  rewrite clean_container_name_cases. apply capitalize_words_shape.
Qed.

(** ** The configuration *)

Lemma has_key_app (key : string) (a b : list (string * json)) :
  has_key key (a ++ b) = has_key key a || has_key key b.
Proof. unfold has_key. apply existsb_app. Qed.

Lemma dict_set_new (members : list (string * json)) (key : string)
    (value : json) :
  has_key key members = false ->
  dict_set members key value = (members ++ [(key, value)])%list.
Proof.
  induction members as [|[k v] rest IH]; [reflexivity|].
  cbn [has_key existsb fst dict_set app]. rewrite orb_false_iff.
  intros [Hk Hrest]. rewrite Hk. f_equal. now apply IH.
Qed.

Lemma dict_get_none (members : list (string * json)) (key : string) :
  dict_get members key = None <-> has_key key members = false.
Proof.
  induction members as [|[k v] rest IH]; [easy|].
  cbn [dict_get has_key existsb fst].
  destruct (k =? key); cbn [orb]; [easy | exact IH].
Qed.

Lemma dict_get_app (a b : list (string * json)) (key : string) :
  dict_get (a ++ b) key
  = match dict_get a key with
    | Some v => Some v
    | None => dict_get b key
    end.
Proof.
  induction a as [|[k v] rest IH]; [reflexivity|].
  cbn [app dict_get]. destruct (k =? key); [reflexivity | exact IH].
Qed.

Lemma merge_defaults_object (defaults members : list (string * json)) :
  NoDup (keys defaults) ->
  merge_defaults defaults (JObject members)
  = Some (JObject (members
                     ++ filter (fun d => negb (has_key (fst d) members))
                               defaults)).
Proof.
  revert members; induction defaults as [|[k v] rest IH]; intros members Hnd.
  - cbn. now rewrite app_nil_r.
  - inversion Hnd as [|? ? Hk Hrest]; subst.
    cbn [merge_defaults py_in filter fst].
    destruct (has_key k members) eqn:Hin; cbn [negb].
    + now apply IH.
    + cbn [py_setitem]. rewrite (dict_set_new _ _ _ Hin), (IH _ Hrest).
      rewrite <- app_assoc. cbn [app]. do 4 f_equal.
      apply filter_ext_in. intros [k' v'] Hin'. cbn [fst].
      rewrite has_key_app. cbn [has_key existsb fst].
      destruct (String.eqb_spec k k') as [->|_]; [|now rewrite !orb_false_r].
      exfalso. apply Hk. change k' with (fst (k', v')). now apply in_map.
Qed.

Lemma dict_get_missing (members defaults : list (string * json))
    (key : string) :
  has_key key members = false ->
  dict_get (filter (fun d => negb (has_key (fst d) members)) defaults) key
  = dict_get defaults key.
Proof.
  intros Hkey; induction defaults as [|[k v] rest IH]; [reflexivity|].
  cbn [filter fst dict_get].
  destruct (String.eqb_spec k key) as [->|Hne].
  - rewrite Hkey. cbn [negb dict_get]. now rewrite String.eqb_refl.
  - destruct (has_key k members); cbn [negb dict_get]; [exact IH|].
    apply String.eqb_neq in Hne. now rewrite Hne.
Qed.

Lemma default_keys_distinct : NoDup (keys default_config).
Proof.
  cbn. repeat constructor; cbn; intuition discriminate.
Qed.

(** X9. When the configuration file holds a JSON object, [load_config]
    returns its members in their order, followed by the defaults whose keys
    it lacks; a key of the file keeps the value of the file, a missing key
    takes its default, and nothing is printed or written. *)
Theorem load_config_merges (members : list (string * json))
    (create : option exn) :
  load_config (Holds (JObject members)) create
  = inr (Loaded.Build (JObject (members ++ missing_defaults members)) [] None)
  /\ (forall key : string,
         dict_get (members ++ missing_defaults members) key
         = match dict_get members key with
           | Some v => Some v
           | None => dict_get default_config key
           end)
  /\ (forall key : string,
         has_key key default_config = true ->
         exists v, py_getitem (JObject (members ++ missing_defaults members))
                              key = inr v).
Proof.
  assert (Hget : forall key : string,
             dict_get (members ++ missing_defaults members) key
             = match dict_get members key with
               | Some v => Some v
               | None => dict_get default_config key
               end).
  { intros key. rewrite dict_get_app.
    destruct (dict_get members key) eqn:Hm; [reflexivity|].
    apply dict_get_missing. now apply dict_get_none. }
  split; [|split; [exact Hget|]].
  - unfold load_config.
    now rewrite (merge_defaults_object _ _ default_keys_distinct).
  - intros key Hkey. cbn [py_getitem]. rewrite Hget.
    destruct (dict_get members key) as [v|]; [now exists v|].
    destruct (dict_get default_config key) as [v|] eqn:Hd; [now exists v|].
    apply dict_get_none in Hd. congruence.
Qed.

Lemma merge_defaults_all_in (defaults : list (string * json)) (config : json) :
  Forall (fun d => py_in (fst d) config = Some true) defaults ->
  merge_defaults defaults config = Some config.
Proof.
  induction 1 as [|[k v] rest Hk _ IH]; [reflexivity|].
  cbn [merge_defaults]. cbn [fst] in Hk. now rewrite Hk.
Qed.

Lemma merge_defaults_not_object (defaults : list (string * json))
    (value config : json) :
  is_object value = false ->
  merge_defaults defaults value = Some config ->
  config = value
  /\ Forall (fun d => py_in (fst d) value = Some true) defaults.
Proof.
  intros Hobj; induction defaults as [|[k v] rest IH]; cbn [merge_defaults].
  - intros [= <-]. now split.
  - destruct (py_in k value) as [[|]|] eqn:Hin; try discriminate.
    + intros H. destruct (IH H) as [-> Hrest]. split; [reflexivity|].
      now constructor.
    + destruct value; cbn in Hobj |- *; discriminate.
Qed.

Lemma merged_has_defaults (members : list (string * json)) :
  Forall (fun d => py_in (fst d)
                         (JObject (members ++ missing_defaults members))
                   = Some true)
         default_config.
Proof.
  apply Forall_forall. intros [k v] Hin. cbn [fst py_in]. f_equal.
  rewrite has_key_app. destruct (has_key k members) eqn:Hk; [reflexivity|].
  cbn [orb]. unfold has_key. apply existsb_exists. exists (k, v).
  split; [|apply String.eqb_refl].
  apply filter_In. split; [exact Hin|]. cbn [fst]. now rewrite Hk.
Qed.

Lemma loaded_has_defaults (file : config_file) (create : option exn)
    (loaded : Loaded.t) :
  load_config file create = inr loaded ->
  Forall (fun d => py_in (fst d) (Loaded.config loaded) = Some true)
         default_config
  /\ (is_object (Loaded.config loaded) = true
      \/ file = Holds (Loaded.config loaded)).
Proof.
  assert (Hdef : Forall (fun d => py_in (fst d) (JObject default_config)
                                  = Some true) default_config).
  { repeat constructor. }
  destruct file as [|e|value]; cbn [load_config].
  - destruct create; [discriminate|]. intros [= <-]. split; [exact Hdef|].
    now left.
  - intros [= <-]. split; [exact Hdef | now left].
  - destruct (merge_defaults default_config value) as [config|] eqn:Hm.
    + intros [= <-]. cbn [Loaded.config].
      destruct (is_object value) eqn:Hobj.
      * destruct value as [| | | | |members]; try discriminate.
        rewrite (merge_defaults_object _ _ default_keys_distinct) in Hm.
        injection Hm as <-. split; [apply merged_has_defaults | now left].
      * destruct (merge_defaults_not_object _ _ _ Hobj Hm) as [-> Hall].
        split; [exact Hall | now right].
    + intros [= <-]. split; [exact Hdef | now left].
Qed.

(** X10. [load_config] raises only when the file is not there and cannot be
    created.  The configuration that it returns holds every default key (in
    the sense of [in]), and it is a dictionary, except for a file that holds
    a JSON array or string in which the three keys occur: this value is
    returned as it is, and its subscript by a key fails. *)
Theorem load_config_returns :
  (forall (file : config_file) (create : option exn) (e : exn),
      load_config file create = inl e <-> file = NoFile /\ create = Some e)
  /\ (forall (file : config_file) (create : option exn) (loaded : Loaded.t),
         load_config file create = inr loaded ->
         Forall (fun d => py_in (fst d) (Loaded.config loaded) = Some true)
                default_config
         /\ (is_object (Loaded.config loaded) = true
             \/ file = Holds (Loaded.config loaded)))
  /\ (let odd := JArray [JString "description"; JString "hostname";
                         JString "protocol"] in
      load_config (Holds odd) None = inr (Loaded.Build odd [] None)
      /\ py_getitem odd "hostname" = inl BadSubscript)
  /\ load_config (Holds (JNumber "8080")) None
     = inr (Loaded.Build (JObject default_config) [TypeError] None).
Proof.
  split; [|split; [exact loaded_has_defaults | repeat split; reflexivity]].
  intros file create e. split.
  - destruct file as [|e'|value]; cbn [load_config].
    + destruct create; [now intros [= ->] | discriminate].
    + discriminate.
    + destruct (merge_defaults default_config value); discriminate.
  - now intros [-> ->].
Qed.

(** X11. A file that holds the configuration that [load_config] returned is
    loaded back as this same configuration, with nothing printed and nothing
    written; the file of defaults that [load_config] creates is such a
    file. *)
Theorem load_config_again
    (file : config_file) (create create' : option exn) (loaded : Loaded.t)
    (Hload : load_config file create = inr loaded) :
  load_config (Holds (Loaded.config loaded)) create'
  = inr (Loaded.Build (Loaded.config loaded) [] None)
  /\ (forall value, Loaded.written loaded = Some value ->
                    value = Loaded.config loaded /\ file = NoFile).
Proof.
  destruct (loaded_has_defaults _ _ _ Hload) as [Hall _]. split.
  - cbn [load_config]. now rewrite (merge_defaults_all_in _ _ Hall).
  - intros value Hw. destruct file as [|e|v]; cbn [load_config] in Hload.
    + destruct create; [discriminate|]. injection Hload as <-.
      cbn in Hw. injection Hw as <-. now split.
    + injection Hload as <-. discriminate Hw.
    + destruct (merge_defaults default_config v); injection Hload as <-;
        discriminate Hw.
Qed.

Lemma load_config_again_witness :
  let loaded := Loaded.Build (JObject default_config) []
                             (Some (JObject default_config)) in
  load_config (Holds (Loaded.config loaded)) None
  = inr (Loaded.Build (Loaded.config loaded) [] None)
  /\ (forall value, Loaded.written loaded = Some value ->
                    value = Loaded.config loaded /\ NoFile = NoFile).
Proof.
  intros loaded.
  exact (load_config_again NoFile None None loaded eq_refl).
Defined.

(** ** The page *)

Lemma catalog_entries (containers : list Container.t)
    (service : DockerService.t) :
  In service (catalog containers) ->
  exists container,
    In container containers /\ emitted container = true
    /\ service = service_of container.
Proof.
  rewrite catalog_sort. intros Hin.
  apply (Permutation_in _ (sort_by_key_perm sort_key _)) in Hin.
  apply in_map_iff in Hin as (c & <- & Hc).
  apply filter_In in Hc as [Hc He]. now exists c.
Qed.

Lemma emitted_first_port (container : Container.t) :
  emitted container = true ->
  exists host cont rest,
    parse_ports (Container.Ports container) = (host, cont) :: rest
    /\ first_port (service_of container) = Some host.
Proof.
  unfold emitted, first_port, service_of. cbn [DockerService.ports].
  destruct (parse_ports (Container.Ports container)) as [|[host cont] rest].
  - now rewrite andb_false_r.
  - intros _. now exists host, cont, rest.
Qed.

(** X12. Every entry of the catalog has a first mapping, so that its card
    never shows the port "None"; the card shows the host port of this
    mapping and links to "http://<hostname>:<host port>", or to "#" when
    the host port is the empty text, as it is for the clause ":8080/tcp". *)
Theorem catalog_cards_link :
  (forall (containers : list Container.t) (hostname : string),
      Forall (fun service =>
                exists host cont rest,
                  DockerService.ports service = (host, cont) :: rest
                  /\ Card.port (card_of hostname service) = host
                  /\ Card.href (card_of hostname service)
                     = if host =? "" then "#"
                       else "http://" ++ hostname ++ ":" ++ host)
             (catalog containers))
  /\ map (fun service => Card.href (card_of "nas.local" service))
         (catalog [Container.Build "wiki" "acme/wiki" "Up 2 days"
                                   "0.0.0.0:8080->80/tcp";
                   Container.Build "blog" "acme/blog" "Up 2 days"
                                   ":8080/tcp"])
     = ["#"; "http://nas.local:8080"].
Proof.
  split; [|reflexivity].
  intros containers hostname. apply Forall_forall. intros service Hin.
  apply catalog_entries in Hin as (c & _ & He & ->).
  destruct (emitted_first_port c He) as (host & cont & rest & Hp & Hf).
  exists host, cont, rest. cbn [service_of DockerService.ports card_of
                                 Card.port Card.href].
  rewrite Hf. split; [exact Hp|]. split; [reflexivity|].
  cbn [main_url]. unfold truthy. now destruct (host =? "").
Qed.

(** X13. For a container that enters the catalog and whose port string has
    "->" in every clause, the card links to "http://<hostname>:<port>",
    where the port is a digit string. *)
Theorem published_container_link
    (container : Container.t) (hostname : string)
    (Hemit : emitted container = true)
    (Harrow : forallb (fun mapping => contains "->" (strip mapping))
                      (split "," (Container.Ports container)) = true) :
  exists port,
    digit_string port = true
    /\ Card.port (card_of hostname (service_of container)) = port
    /\ Card.href (card_of hostname (service_of container))
       = "http://" ++ hostname ++ ":" ++ port.
Proof.
  destruct (emitted_first_port container Hemit)
    as (host & cont & rest & Hp & Hf).
  pose proof (parse_ports_arrow_digits _ Harrow) as Hd.
  rewrite Hp in Hd. cbn [forallb] in Hd.
  apply andb_true_iff in Hd as [Hd _]. unfold digit_pair in Hd.
  cbn [fst snd] in Hd. apply andb_true_iff in Hd as [Hhost _].
  exists host. split; [exact Hhost|].
  cbn [card_of Card.port Card.href]. rewrite Hf. split; [reflexivity|].
  cbn [main_url]. unfold digit_string in Hhost.
  apply andb_true_iff in Hhost as [Ht _]. now rewrite Ht.
Qed.

Lemma published_container_link_witness :
  exists port,
    digit_string port = true
    /\ Card.port (card_of "nas.local"
                          (service_of (Container.Build
                                         "wiki" "acme/wiki" "Up 2 days"
                                         "0.0.0.0:8080->80/tcp, [::]:8080->80/tcp")))
       = port
    /\ Card.href (card_of "nas.local"
                          (service_of (Container.Build
                                         "wiki" "acme/wiki" "Up 2 days"
                                         "0.0.0.0:8080->80/tcp, [::]:8080->80/tcp")))
       = "http://" ++ "nas.local" ++ ":" ++ port.
Proof.
  apply (published_container_link
           (Container.Build "wiki" "acme/wiki" "Up 2 days"
                            "0.0.0.0:8080->80/tcp, [::]:8080->80/tcp")
           "nas.local"); reflexivity.
Defined.

Lemma filter_map_comm {A B : Type} (f : A -> B) (p : B -> bool) (l : list A) :
  filter p (map f l) = map f (filter (fun x => p (f x)) l).
Proof.
  induction l as [|x l IH]; [reflexivity|].
  cbn [map filter]. destruct (p (f x)); cbn [map]; now rewrite IH.
Qed.

Lemma status_class_stopped (service : DockerService.t) :
  (status_class service =? "status-stopped")
  = negb (contains "Up" (DockerService.status service)).
Proof.
  unfold status_class.
  destruct (contains "Up" (DockerService.status service)); [|reflexivity].
  now destruct (contains "unhealthy" (lower (DockerService.status service))).
Qed.

(** X14. The count "Running" of the page is the number of cards that are
    not marked as stopped, and with the cards marked as stopped they make
    the total; the count "Stopped" follows another test, on "Exited" and
    "Created", and may differ from the number of cards marked as stopped: a
    container that is restarting is marked as stopped and counted
    neither as running nor as stopped. *)
Theorem page_counts :
  (forall (hostname now : string) (services : list DockerService.t),
      let page := page_of hostname now services in
      Page.total page = List.length (Page.cards page)
      /\ Page.running page
         = List.length (filter (fun card => negb (shown_stopped card))
                               (Page.cards page))
      /\ (Page.running page
          + List.length (filter shown_stopped (Page.cards page))
          = Page.total page)%nat
      /\ (Page.stopped page <= Page.total page)%nat)
  /\ (let page :=
        page_of "localhost" "2026-01-01 00:00:00"
                [DockerService.Build "Wiki" "acme/wiki"
                   "Restarting (1) 5 seconds ago" [("8080", "80")]
                   None "Other" ""] in
      Page.running page = 0%nat /\ Page.stopped page = 0%nat
      /\ Page.total page = 1%nat
      /\ map Card.css_class (Page.cards page) = ["status-stopped"]).
Proof.
  split; [|repeat split; reflexivity].
  intros hostname now services page. subst page.
  cbn [page_of Page.total Page.running Page.stopped Page.cards].
  assert (Hrun : List.length (running_services services)
                 = List.length
                     (filter (fun card => negb (shown_stopped card))
                             (map (card_of hostname) services))).
  { rewrite filter_map_comm, length_map. unfold running_services.
    f_equal. apply filter_ext. intros s. unfold shown_stopped.
    cbn [card_of Card.css_class].
    now rewrite status_class_stopped, negb_involutive. }
  split; [now rewrite length_map|]. split; [exact Hrun|]. split.
  - rewrite Hrun, <- (length_map (card_of hostname) services), Nat.add_comm.
    apply filter_length.
  - unfold stopped_services. apply filter_length_le.
Qed.


(** ** The HTTP handler *)

(** X16. To every request the handler answers with a status among 200, 404
    and 500 and writes one body, last.  The request of "/api/refresh" is
    answered with the status 200 before the refresh is tried: when the
    refresh fails, the status 500 and the body of the error come after the
    complete head of the 200 response.  "/" and "/dashboard" are the same
    request; any other path gives the page 404, whatever the state of the
    dashboard. *)
Theorem do_GET_answers :
  (forall (path : string) (refresh : option string) (index : exn + string)
          (now : string),
      let calls := do_GET path refresh index now in
      (exists code,
          first_status calls = Some code
          /\ (code = 200 \/ code = 404 \/ code = 500)%nat)
      /\ List.length (bodies calls) = 1%nat
      /\ (exists front content, calls = (front ++ [Write content])%list)
      /\ (path <> "/api/refresh" -> path <> "/" -> path <> "/dashboard" ->
          calls = [SendResponse 404; SendHeader "Content-type" "text/html";
                   EndHeaders; Write NotFound]))
  /\ (forall (refresh : option string) (index : exn + string) (now : string),
         exists rest,
           do_GET "/api/refresh" refresh index now
           = ([SendResponse 200;
               SendHeader "Content-type" "application/json"; EndHeaders]
              ++ rest)%list
           /\ (forall e, refresh = Some e ->
                         rest = [SendResponse 500;
                                 SendHeader "Content-type" "application/json";
                                 EndHeaders; Write (JsonStatus "error" e now)]))
  /\ (forall (refresh : option string) (index : exn + string) (now : string),
         do_GET "/" refresh index now = do_GET "/dashboard" refresh index now
         /\ first_status (do_GET "/" refresh index now)
            = Some match index with
                   | inr _ => 200
                   | inl FileNotFoundError => 404
                   | inl _ => 500
                   end%nat).
Proof.
  split; [|split].
  - intros path refresh index now calls. subst calls. unfold do_GET.
    destruct (String.eqb_spec path "/api/refresh") as [->|H1].
    + destruct refresh as [e|]; cbn.
      * repeat split; try reflexivity; try easy.
        -- exists 200%nat. now split; [|left].
        -- now exists [SendResponse 200;
                       SendHeader "Content-type" "application/json";
                       EndHeaders; SendResponse 500;
                       SendHeader "Content-type" "application/json";
                       EndHeaders], (JsonStatus "error" e now).
      * repeat split; try reflexivity; try easy.
        -- exists 200%nat. now split; [|left].
        -- now exists [SendResponse 200;
                       SendHeader "Content-type" "application/json";
                       EndHeaders],
                      (JsonStatus "success" "Dashboard updated successfully"
                                  now).
    + destruct (String.eqb_spec path "/") as [->|H2];
        [|destruct (String.eqb_spec path "/dashboard") as [->|H3]];
        cbn [orb].
      1,2: destruct index as [[e| |e]|html]; cbn;
        (repeat split; try reflexivity; try easy;
         [eexists; split; [reflexivity | auto]
         | eexists [_; _; _], _; reflexivity]).
      repeat split; try reflexivity; try easy.
      * exists 404%nat. auto.
      * now exists [SendResponse 404; SendHeader "Content-type" "text/html";
                    EndHeaders], NotFound.
  - intros refresh index now. cbn. eexists. split; [reflexivity|].
    now intros e ->.
  - intros refresh index now. split; [reflexivity|].
    cbn. now destruct index as [[e| |e]|html].
Qed.
